(** * flashcard_generator.py: the pending-word lifecycle, the selector and
      the one-ahead prefetch loop, embedded and verified.

    The script is embedded shallowly: pure helpers become functions on
    Python strings, and the effectful code runs in a small monad that
    threads the files, the Anki collection and the console, records a
    trace of effects, and can raise. *)

From Stdlib Require Import NArith ZArith Ascii String DecimalString.
From stdpp Require Import gmap strings list fin_maps.

Local Open Scope N_scope.

(** ** Python strings

    A Python [str] is a sequence of Unicode code points; a character is
    its code point. *)

Abbreviation char := N.
Abbreviation str := (list N).

Definition LF : char := 10.
Definition CR : char := 13.
Definition QUOTE : char := 34.

(** An ASCII literal as a Python string; a backslash followed by n is the
    line feed, as in the source's literals. *)
Fixpoint unescape (l : list ascii) : str :=
  match l with
  | [] => []
  | a :: l' =>
      match l' with
      | b :: l'' =>
          if (N_of_ascii a =? 92) && (N_of_ascii b =? 110)
          then LF :: unescape l''
          else N_of_ascii a :: unescape l'
      | [] => [N_of_ascii a]
      end
  end.

Definition py (s : string) : str := unescape (list_ascii_of_string s).

(** [str(n)] for the integers the script formats. *)
Definition str_of_nat (n : nat) : str :=
  py (NilZero.string_of_uint (Nat.to_uint n)).
Definition str_of_Z (z : Z) : str :=
  py (NilZero.string_of_int (Z.to_int z)).

(** [str.isspace] on one character, as used by [strip()] and [split()]:
    the characters whose bidirectional type is WS, B or S, or whose
    category is Zs. *)
Definition isspace (c : char) : bool :=
  ((0x09 <=? c) && (c <=? 0x0D)) || ((0x1C <=? c) && (c <=? 0x20))
  || (c =? 0x85) || (c =? 0xA0) || (c =? 0x1680)
  || ((0x2000 <=? c) && (c <=? 0x200A))
  || (c =? 0x2028) || (c =? 0x2029) || (c =? 0x202F) || (c =? 0x205F)
  || (c =? 0x3000).

Fixpoint lstrip (s : str) : str :=
  match s with
  | [] => []
  | c :: s' => if isspace c then lstrip s' else s
  end.

Definition rstrip (s : str) : str := reverse (lstrip (reverse s)).

(** [s.strip()] *)
Definition strip (s : str) : str := lstrip (rstrip s).

(** [s.split(sep)] for a one-character separator: never empty. *)
Fixpoint split_on (sep : char) (s : str) : list str :=
  match s with
  | [] => [[]]
  | c :: s' =>
      let r := split_on sep s' in
      if c =? sep then [] :: r else (c :: hd [] r) :: tl r
  end.

(** [s.split()]: the maximal runs of non-whitespace characters. *)
Fixpoint split_ws (s : str) : list str :=
  match s with
  | [] => []
  | c :: s' =>
      if isspace c then split_ws s'
      else match s' with
           | [] => [[c]]
           | c' :: _ =>
               if isspace c' then [c] :: split_ws s'
               else match split_ws s' with
                    | t :: ts => (c :: t) :: ts
                    | [] => [[c]]
                    end
           end
  end.

(** [s.startswith(p)] *)
Fixpoint startswith (p s : str) : bool :=
  match p, s with
  | [], _ => true
  | _ :: _, [] => false
  | a :: p', b :: s' => (a =? b) && startswith p' s'
  end.

(** [s.replace(old, new)] for a non-empty [old]: occurrences are replaced
    from the left and do not overlap.  [skip] counts the characters of a
    match that are still to be dropped. *)
Fixpoint replace_from (old new : str) (skip : nat) (s : str) : str :=
  match s with
  | [] => []
  | c :: s' =>
      match skip with
      | S k => replace_from old new k s'
      | O => if startswith old s
             then new ++ replace_from old new (pred (length old)) s'
             else c :: replace_from old new 0 s'
      end
  end.

Definition replace (old new s : str) : str := replace_from old new 0 s.

(** ** Text files

    A file holds decoded text.  Every [open] of the script is in text mode
    with the default [newline] argument: reading translates "\r\n" and a
    lone "\r" to "\n"; writing is verbatim where [os.linesep] is "\n". *)

Fixpoint universal_newlines (s : str) : str :=
  match s with
  | [] => []
  | c :: s' =>
      if c =? CR
      then LF :: match s' with
                 | [] => []
                 | c' :: s'' =>
                     if c' =? LF then universal_newlines s''
                     else universal_newlines s'
                 end
      else c :: universal_newlines s'
  end.

(** [f.readlines()] on text already read: the lines, each with its
    terminating "\n" (the last one may lack it). *)
Fixpoint readlines (s : str) : list str :=
  match s with
  | [] => []
  | c :: s' =>
      if c =? LF then [c] :: readlines s'
      else match readlines s' with
           | l :: ls => (c :: l) :: ls
           | [] => [[c]]
           end
  end.

(** ** Kana classification (source lines 46-48) *)

Definition kana_char (c : char) : bool :=
  ((0x3040 <=? c) && (c <=? 0x309F)) || ((0x30A0 <=? c) && (c <=? 0x30FF)).

Definition is_kana (s : str) : bool := forallb kana_char s.



(** ** Digits

    [c.isdigit()] holds for the characters whose Unicode Numeric_Type is
    Decimal or Digit; [int(c)] parses only those of type Decimal and
    raises ValueError on the others. *)

Inductive numeric_type :=
| Decimal (d : nat)
| Digit
| NotDigit.

(** Basic Latin and Latin-1 Supplement: the decimals are 0-9; superscript
    two, three and one are digits that are not decimals. *)
Definition latin1_numeric (c : char) : numeric_type :=
  if (0x30 <=? c) && (c <=? 0x39) then Decimal (N.to_nat (c - 0x30))
  else if (c =? 0xB2) || (c =? 0xB3) || (c =? 0xB9) then Digit
  else NotDigit.

(** ** Configuration constants (source lines 15-43) *)

Definition _NEW_WORDS : str := py "\n".
Definition _DECK_NAME : string := "Japanese".
Definition _CLOZE_MODEL_NAME : string := "Japanese Cloze".
Definition _BASIC_MODEL_NAME : string := "Japanese Reading".
Definition _CLOZE_EXAMPLE_SENTENCE_FIELD : string := "Expression".
Definition _CLOZE_ENGLISH_FIELD : string := "Extra".
Definition _BASIC_JAPANESE_FIELD : string := "Expression".
Definition _BASIC_ENGLISH_FIELD : string := "Meaning".
Definition _CLOZE_PROMPT_PATH : string := "cloze_prompt.txt".
Definition _BASIC_PROMPT_PATH : string := "basic_prompt.txt".
Definition _WORDS_PENDING_PATH : string := "words_pending.txt".
Definition _WORDS_DONE_PATH : string := "words_done.txt".
Definition _WORDS_SKIPPED_PATH : string := "words_skipped.txt".

(** ** The world the script acts on *)

Inductive exn :=
| EOFError
| ValueError (msg : str)
| IndexError
| FileNotFoundError (path : string)
| APIError.

(** One candidate of the model's JSON answer. *)
Record flashcard := Flashcard { example_sentence : str; english : str }.

(** A note of the Anki collection: its note type, its fields in the order
    they were set, and the deck it was added to. *)
Record Note := MkNote
  { note_model : Z; note_fields : list (string * str); note_deck : Z }.

Record Collection := MkCollection
  { decks : gmap string Z; models : gmap string Z; notes : list Note }.

Record world := World
  { files : gmap string str;      (* path to text *)
    anki : Collection;
    stdin : list str }.           (* the lines the user will type *)

(** What the main thread does, in order.  [Submit], [Result] and [Review]
    carry the index of the word in the pending list. *)
Inductive event :=
| Print (line : str)
| Prompt (text : str)
| ReadFile (path : string)
| OpenAppend (path : string)
| AppendFile (path : string) (text : str)
| WriteFile (path : string) (text : str)
| AddNote (n : Note)
| Submit (i : nat) (word : str)
| Result (i : nat)
| Review (i : nat) (word : str).

Record outcome (A : Type) := Outcome
  { trace : list event; final : world; value : exn + A }.
Arguments Outcome {A} _ _ _.
Arguments trace {A} _.
Arguments final {A} _.
Arguments value {A} _.

(** State, trace and exceptions. *)
Definition M (A : Type) : Type := world -> outcome A.

Definition ret {A} (a : A) : M A := fun w => Outcome [] w (inr a).

Definition bind {A B} (m : M A) (f : A -> M B) : M B := fun w =>
  let o := m w in
  match value o with
  | inl e => Outcome (trace o) (final o) (inl e)
  | inr a => let o' := f a (final o) in
             Outcome (trace o ++ trace o') (final o') (value o')
  end.

Definition raise {A} (e : exn) : M A := fun w => Outcome [] w (inl e).

Definition emit (ev : event) : M unit := fun w => Outcome [ev] w (inr tt).

Definition lift {A} (r : exn + A) : M A := fun w => Outcome [] w r.

Definition gets {A} (f : world -> A) : M A := fun w => Outcome [] w (inr (f w)).

Notation "'do' x <- m ; k" := (bind m (fun x => k))
  (at level 10, x name, m at level 100, k at level 200).

Definition print (line : str) : M unit := emit (Print line).

(** [open(path, "r").read()] *)
Definition read_file (path : string) : M str := fun w =>
  match files w !! path with
  | None => Outcome [] w (inl (FileNotFoundError path))
  | Some s => Outcome [ReadFile path] w (inr (universal_newlines s))
  end.

(** [open(path, "a")] creates the file when it is missing. *)
Definition open_append (path : string) : M unit := fun w =>
  Outcome [OpenAppend path]
    (World (<[path := default [] (files w !! path)]> (files w)) (anki w) (stdin w))
    (inr tt).

(** The files after [text] is appended to the file at [path]. *)
Definition appended (path : string) (text : str) (fs : gmap string str)
    : gmap string str :=
  <[path := default [] (fs !! path) ++ text]> fs.

(** [f.write(text)] on a file opened for appending. *)
Definition write_append (path : string) (text : str) : M unit := fun w =>
  Outcome [AppendFile path text]
    (World (appended path text (files w)) (anki w) (stdin w))
    (inr tt).

(** [open(path, "w")] followed by [f.writelines(lines)] *)
Definition write_lines (path : string) (lines : list str) : M unit := fun w =>
  Outcome [WriteFile path (concat lines)]
    (World (<[path := concat lines]> (files w)) (anki w) (stdin w))
    (inr tt).

(** [input(text)]: EOFError when the input is exhausted. *)
Definition input (text : str) : M str := fun w =>
  match stdin w with
  | [] => Outcome [Prompt text] w (inl EOFError)
  | line :: rest =>
      Outcome [Prompt text] (World (files w) (anki w) rest) (inr line)
  end.

(** [l[i]] with Python's negative indices. *)
Definition getitem {A} (l : list A) (i : Z) : exn + A :=
  let n := Z.of_nat (length l) in
  let j := if (i <? 0)%Z then (i + n)%Z else i in
  if (j <? 0)%Z then inl IndexError
  else match l !! Z.to_nat j with
       | Some a => inr a
       | None => inl IndexError
       end.

(** ** The script *)

(** What [int(c)] raises on a character that is not a decimal. *)
Definition int_error (c : char) : exn :=
  ValueError (py "invalid literal for int() with base 10: '" ++ [c] ++ py "'").

Section Script.

(** The interpreter's Numeric_Type table beyond U+00FF. *)
Variable unicodedata : char -> numeric_type.
(** The random source: the number drawn at iteration [i] of the shuffle. *)
Variable rng : nat -> nat.
(** The remote model: what request number [n] with a given prompt
    yields, an exception or the parsed list of candidates. *)
Variable llm : nat -> str -> exn + list flashcard.

Definition numeric (c : char) : numeric_type :=
  if c <? 0x100 then latin1_numeric c else unicodedata c.

(** [c.isdigit()] *)
Definition isdigit (c : char) : bool :=
  match numeric c with NotDigit => false | _ => true end.

(** [int(c)] for a one-character string *)
Definition int (c : char) : exn + nat :=
  match numeric c with
  | Decimal d => inr d
  | _ => inl (int_error c)
  end.

(** [x[i], x[j] = x[j], x[i]] *)
Definition swap {A} (x : list A) (i j : nat) : list A :=
  match x !! i, x !! j with
  | Some a, Some b => <[j := a]> (<[i := b]> x)
  | _, _ => x
  end.

(** [random.shuffle(x)]: for i from len(x)-1 down to 1, swap x[i] with
    x[randbelow(i+1)]. *)
Fixpoint shuffle_from {A} (i : nat) (x : list A) : list A :=
  match i with
  | O => x
  | S i' => shuffle_from i' (swap x i (rng i mod S i)%nat)
  end.

Definition shuffle {A} (x : list A) : list A :=
  shuffle_from (length x - 1) x.

(** Source line 54: the first token of every line that is neither blank
    nor a comment. *)
Definition tokens_of_lines (lines : list str) : list str :=
  (fun line => hd [] (split_ws (strip line)))
    <$> filter (fun line => strip line <> []
                            /\ startswith (py "#") (strip line) = false) lines.

(** Source lines 51-59.  The iteration order of a Python set is
    unspecified; it is taken to be that of [elements]. *)
Definition _get_new_words_from_multiline_string (word_string : str) : list str :=
  let lines := split_on LF word_string in
  let words := tokens_of_lines lines in
  let words := elements (list_to_set words : gset str) in
  shuffle words.

(** Source lines 62-65 *)
Definition _load_pending_words_from_file : M (list str) :=
  do text <- read_file _WORDS_PENDING_PATH;
  ret (split_on LF text).

(** Source lines 70-73 *)
Fixpoint append_new_words (new_words existing_words : list str) : M unit :=
  match new_words with
  | [] => ret tt
  | word :: rest =>
      do _ <- (if bool_decide (word ∈ existing_words) then ret tt
               else do _ <- print (py "Adding to pending words file: " ++ word);
                    write_append _WORDS_PENDING_PATH (word ++ [LF]));
      append_new_words rest existing_words
  end.

(** Source lines 68-73 *)
Definition _append_new_pending_words_to_file
    (new_words existing_words : list str) : M unit :=
  do _ <- open_append _WORDS_PENDING_PATH;
  append_new_words new_words existing_words.

Definition prompt_path (word : str) : string :=
  if is_kana word then _BASIC_PROMPT_PATH else _CLOZE_PROMPT_PATH.

(** Source lines 76-96.  The call runs on the worker thread; it only
    reads a prompt file, which the main thread never writes, so it is a
    function of the files at submission. *)
Definition _request_flashcards_from_llm
    (n : nat) (word : str) (fs : gmap string str) : exn + list flashcard :=
  match fs !! prompt_path word with
  | None => inl (FileNotFoundError (prompt_path word))
  | Some text =>
      let prompt := universal_newlines text in
      let prompt := replace (py "{{WORD}}") word prompt in
      llm n prompt
  end.

(** Source lines 99-104 *)
Definition _remove_word_from_pending_file (word : str) : M unit :=
  do text <- read_file _WORDS_PENDING_PATH;
  let lines := readlines text in
  let lines := filter (fun line => strip line <> word) lines in
  write_lines _WORDS_PENDING_PATH lines.

(** Source lines 168-172 *)
Definition _add_flashcard_to_deck
    (deck_id model_id : Z) (fields : list (string * str)) : M unit := fun w =>
  let note := MkNote model_id fields deck_id in
  let c := anki w in
  Outcome [AddNote note]
    (World (files w) (MkCollection (decks c) (models c) (notes c ++ [note]))
       (stdin w))
    (inr tt).

(** Source lines 115-117 *)
Fixpoint print_options (i : nat) (flashcards : list flashcard) : M unit :=
  match flashcards with
  | [] => ret tt
  | card :: rest =>
      do _ <- print (str_of_nat (i + 1) ++ py "   " ++ example_sentence card);
      do _ <- print (py "    " ++ english card ++ py "\n");
      print_options (S i) rest
  end.

(** Source lines 133-140: the validation loop; the result is [valid]. *)
Fixpoint validate (count : nat) (seen : gset nat) (user_input : str) : M bool :=
  match user_input with
  | [] => ret true
  | c :: rest =>
      if negb (isdigit c)
      then do _ <- print (py "Invalid input: " ++ [c]); ret false
      else
        do d <- lift (int c);
        if (count <? d)%nat || (d =? 0)%nat || bool_decide (d ∈ seen)
        then do _ <- print (py "Invalid input: " ++ [c]); ret false
        else validate count ({[d]} ∪ seen) rest
  end.

(** Source lines 145-158 *)
Fixpoint create_flashcards (word : str) (flashcards : list flashcard)
    (deck_id cloze_model_id basic_model_id : Z) (user_input : str) : M unit :=
  match user_input with
  | [] => ret tt
  | c :: rest =>
      do _ <- print (py "Creating flashcard: [" ++ [c] ++ py "] " ++ word);
      do d <- lift (int c);
      do flashcard <- lift (getitem flashcards (Z.of_nat d - 1));
      do _ <- (if is_kana word
               then _add_flashcard_to_deck deck_id basic_model_id
                      [(_BASIC_JAPANESE_FIELD, example_sentence flashcard);
                       (_BASIC_ENGLISH_FIELD, english flashcard)]
               else _add_flashcard_to_deck deck_id cloze_model_id
                      [(_CLOZE_EXAMPLE_SENTENCE_FIELD, example_sentence flashcard);
                       (_CLOZE_ENGLISH_FIELD, english flashcard)]);
      create_flashcards word flashcards deck_id cloze_model_id basic_model_id rest
  end.

Definition selection_prompt : str :=
  py "Enter " ++ [QUOTE] ++ py "1" ++ [QUOTE] ++ py " to keep first card, "
  ++ [QUOTE] ++ py "2" ++ [QUOTE] ++ py " to keep second, "
  ++ [QUOTE] ++ py "13" ++ [QUOTE] ++ py " to keep first and third, etc. "
  ++ py "Blank to skip this word without creating any cards.\nFlashcards to keep: ".

(** Source lines 120-165: the [while True] loop.  Every iteration reads
    one line, so the loop recurses on [lines], the input still to be
    typed ([stdin] of the world it runs in). *)
Fixpoint selection_loop (word : str) (flashcards : list flashcard)
    (deck_id cloze_model_id basic_model_id : Z) (lines : list str) : M unit :=
  do user_input <- input selection_prompt;
  match lines with
  | [] => raise EOFError
  | _ :: lines' =>
      if bool_decide (user_input = [])
      then
        do _ <- open_append _WORDS_SKIPPED_PATH;
        do _ <- write_append _WORDS_SKIPPED_PATH (word ++ [LF]);
        _remove_word_from_pending_file word
      else
        do valid <- validate (length flashcards) ∅ user_input;
        if negb valid
        then selection_loop word flashcards deck_id cloze_model_id
               basic_model_id lines'
        else
          do _ <- create_flashcards word flashcards deck_id cloze_model_id
                    basic_model_id user_input;
          do _ <- open_append _WORDS_DONE_PATH;
          do _ <- write_append _WORDS_DONE_PATH (word ++ [LF]);
          _remove_word_from_pending_file word
  end.

(** Source lines 107-165.  [completion] is the parsed answer,
    [response["flashcards"]]. *)
Definition _create_flashcard_interactively (word : str)
    (completion : list flashcard)
    (deck_id cloze_model_id basic_model_id : Z) : M unit :=
  do _ <- print (py "Flashcard options: " ++ word ++ py "\n");
  let flashcards := completion in
  do _ <- print_options 0 flashcards;
  fun w => selection_loop word flashcards deck_id cloze_model_id
             basic_model_id (stdin w) w.

(** [executor.submit(_request_flashcards_from_llm, word)]: the future
    holds what the call will return or raise. *)
Definition submit (i : nat) (word : str) : M (exn + list flashcard) := fun w =>
  Outcome [Submit i word] w
    (inr (_request_flashcards_from_llm i word (files w))).

(** [completion_future.result()] *)
Definition future_result (i : nat) (future : exn + list flashcard)
    : M (list flashcard) :=
  do _ <- emit (Result i);
  lift future.

(** Source lines 208-216: iteration [i] of the [for] loop, with
    [remaining] iterations to go. *)
Fixpoint main_loop (pending_words : list str)
    (deck_id cloze_model_id basic_model_id : Z)
    (i remaining : nat) (completion_future : exn + list flashcard) : M unit :=
  match remaining with
  | O => ret tt
  | S remaining' =>
      do completion <- future_result i completion_future;
      do completion_future <-
        (if (i + 1 <? length pending_words)%nat
         then do word <- lift (getitem pending_words (Z.of_nat i + 1));
              submit (i + 1) word
         else ret completion_future);
      do word <- lift (getitem pending_words (Z.of_nat i));
      do _ <- emit (Review i word);
      do _ <- _create_flashcard_interactively word completion
                deck_id cloze_model_id basic_model_id;
      main_loop pending_words deck_id cloze_model_id basic_model_id
        (S i) remaining' completion_future
  end.

(** [id_for_name] followed by the [if not ...: raise ValueError]. *)
Definition require_id (ids : gmap string Z) (name : string) (msg : str) : M Z :=
  match ids !! name with
  | Some id => if (id =? 0)%Z then raise (ValueError msg) else ret id
  | None => raise (ValueError msg)
  end.

(** Source lines 175-216, for a given value of the [_NEW_WORDS] block. *)
Definition main_with (new_words : str) : M unit :=
  do c <- gets anki;
  do deck_id <- require_id (decks c) _DECK_NAME
      (py "Deck name " ++ py _DECK_NAME ++ py " not found.");
  do cloze_model_id <- require_id (models c) _CLOZE_MODEL_NAME
      (py "Cloze model name (note type) " ++ py _CLOZE_MODEL_NAME
       ++ py " not found.");
  do basic_model_id <- require_id (models c) _BASIC_MODEL_NAME
      (py "Basic model name (note type) " ++ py _BASIC_MODEL_NAME
       ++ py " not found.");
  do _ <- print (py "Loaded Anki collection. Deck ID: " ++ str_of_Z deck_id
                 ++ py ", Basic Model ID: " ++ str_of_Z basic_model_id
                 ++ py ", Cloze Model ID: " ++ str_of_Z cloze_model_id);
  let constant_words := _get_new_words_from_multiline_string new_words in
  do pending_words <- _load_pending_words_from_file;
  do pending_words <-
    (match constant_words with
     | [] => ret pending_words
     | _ :: _ =>
         do _ <- _append_new_pending_words_to_file constant_words pending_words;
         _load_pending_words_from_file
     end);
  match pending_words with
  | [] => print (py "No words to process.")
  | _ :: _ =>
      do first <- lift (getitem pending_words 0);
      do completion_future <- submit 0 first;
      main_loop pending_words deck_id cloze_model_id basic_model_id
        0 (length pending_words) completion_future
  end.

Definition _main : M unit := main_with _NEW_WORDS.

End Script.

(** ** Notions the properties are stated with *)

(** The shape of what [readlines] returns: every line but the last ends
    with its only line feed; the last may end without one. *)
Inductive lines_wf : list str -> Prop :=
| lines_wf_nil : lines_wf []
| lines_wf_last u : u <> [] -> LF ∉ u -> lines_wf [u]
| lines_wf_cons b ls : LF ∉ b -> lines_wf ls -> lines_wf ((b ++ [LF]) :: ls).

(** The lines of a file as the script reads them. *)
Definition file_lines (content : str) : list str :=
  readlines (universal_newlines content).

(** What [_append_new_pending_words_to_file] writes: one line per new
    word that is not among the existing ones. *)
Definition appended_text (new_words existing_words : list str) : str :=
  concat ((fun word => word ++ [LF])
            <$> filter (fun word => word ∉ existing_words) new_words).

(** The hiragana block U+3040..U+309F and the katakana block U+30A0..U+30FF. *)
Definition in_kana_blocks (c : char) : Prop :=
  (0x3040 <= c /\ c <= 0x309F) \/ (0x30A0 <= c /\ c <= 0x30FF).

Definition is_file_event (e : event) : bool :=
  match e with
  | ReadFile _ | OpenAppend _ | AppendFile _ _ | WriteFile _ _ => true
  | _ => false
  end.

(** The file operations of a trace, in order. *)
Definition file_events (t : list event) : list event :=
  filter (fun e => is_file_event e = true) t.

Definition is_print (e : event) : Prop :=
  match e with Print _ => True | _ => False end.

(** [user_input] selects the candidates numbered [ds]: every character is
    a decimal digit whose value lies in 1..count, and no value repeats. *)
Definition selects (unicodedata : char -> numeric_type) (count : nat)
    (user_input : str) (ds : list nat) : Prop :=
  Forall2 (fun c d => numeric unicodedata c = Decimal d
                      /\ (1 <= d <= count)%nat) user_input ds
  /\ NoDup ds.

(** The selection relative to the digits already seen. *)
Definition selects_from (unicodedata : char -> numeric_type) (count : nat)
    (seen : gset nat) (user_input : str) (ds : list nat) : Prop :=
  Forall2 (fun c d => numeric unicodedata c = Decimal d
                      /\ (1 <= d <= count)%nat) user_input ds
  /\ NoDup ds /\ Forall (fun d => d ∉ seen) ds.

(** The error message for the offending character. *)
Definition invalid_input (c : char) : event :=
  Print (py "Invalid input: " ++ [c]).

(** The collection with [new] notes added. *)
Definition with_notes (c : Collection) (new : list Note) : Collection :=
  MkCollection (decks c) (models c) (notes c ++ new).

(** The note made from a candidate: the basic (kana-only) mapping for a
    kana word, the cloze mapping otherwise. *)
Definition note_for (word : str) (deck_id cloze_model_id basic_model_id : Z)
    (card : flashcard) : Note :=
  if is_kana word
  then MkNote basic_model_id
         [(_BASIC_JAPANESE_FIELD, example_sentence card);
          (_BASIC_ENGLISH_FIELD, english card)] deck_id
  else MkNote cloze_model_id
         [(_CLOZE_EXAMPLE_SENTENCE_FIELD, example_sentence card);
          (_CLOZE_ENGLISH_FIELD, english card)] deck_id.

(** What creating the chosen candidates prints and adds, digit by digit. *)
Fixpoint creation_trace (word : str) (deck_id cloze_model_id basic_model_id : Z)
    (user_input : str) (chosen : list flashcard) : list event :=
  match user_input, chosen with
  | c :: rest, card :: cards =>
      Print (py "Creating flashcard: [" ++ [c] ++ py "] " ++ word)
      :: AddNote (note_for word deck_id cloze_model_id basic_model_id card)
      :: creation_trace word deck_id cloze_model_id basic_model_id rest cards
  | _, _ => []
  end.

(** The outcome [o] preceded by the events [t]. *)
Definition after {A} (t : list event) (o : outcome A) : outcome A :=
  Outcome (t ++ trace o) (final o) (value o).

(** What a terminal decision on [word] does: one append to the done or
    the skipped file, then one rewrite of the pending file without the
    lines whose trimmed content is [word]; notes are added exactly in the
    done case. *)
Definition decided (word : str) (w : world) (o : outcome unit) : Prop :=
  exists path pending new_notes,
    ((path = _WORDS_SKIPPED_PATH /\ new_notes = [])
     \/ (path = _WORDS_DONE_PATH /\ new_notes <> [])) /\
    files w !! _WORDS_PENDING_PATH = Some pending /\
    let kept := concat (filter (fun line => strip line <> word)
                          (file_lines pending)) in
    file_events (trace o)
    = [OpenAppend path; AppendFile path (word ++ [LF]);
       ReadFile _WORDS_PENDING_PATH; WriteFile _WORDS_PENDING_PATH kept] /\
    files (final o)
    = <[_WORDS_PENDING_PATH := kept]> (appended path (word ++ [LF]) (files w)) /\
    anki (final o) = with_notes (anki w) new_notes.

(** Source lines 203-216: the block under the executor, as [main_with]
    runs it on a pending list that is not empty. *)
Definition process_pending_words (unicodedata : char -> numeric_type)
    (llm : nat -> str -> exn + list flashcard) (pending_words : list str)
    (deck_id cloze_model_id basic_model_id : Z) : M unit :=
  do first <- lift (getitem pending_words 0);
  do completion_future <- submit llm 0 first;
  main_loop unicodedata llm pending_words deck_id cloze_model_id basic_model_id
    0 (length pending_words) completion_future.

Definition is_pipeline_event (e : event) : bool :=
  match e with
  | Submit _ _ | Result _ | Review _ _ => true
  | _ => false
  end.

(** The submissions, retrievals and review starts of a trace, in order. *)
Definition pipeline (t : list event) : list event :=
  filter (fun e => is_pipeline_event e = true) t.

Definition is_submit (e : event) : bool :=
  match e with Submit _ _ => true | _ => false end.

Definition is_result (e : event) : bool :=
  match e with Result _ => true | _ => false end.

(** How many requests were submitted, and how many results retrieved. *)
Definition submitted (t : list event) : nat :=
  length (filter (fun e => is_submit e = true) t).
Definition retrieved (t : list event) : nat :=
  length (filter (fun e => is_result e = true) t).

(** The one-ahead schedule of iterations [i], [i+1], ... of the loop:
    retrieve word i, submit word i+1 if there is one, review word i. *)
Fixpoint schedule (words : list str) (i remaining : nat) : list event :=
  match remaining with
  | O => []
  | S r =>
      Result i
      :: match words !! S i with Some next => [Submit (S i) next] | None => [] end
      ++ match words !! i with Some word => [Review i word] | None => [] end
      ++ schedule words (S i) r
  end.

(** The events the iterations [lo], ..., [hi-1] of the loop may emit. *)
Definition stage_ok (words : list str) (lo hi : nat) (e : event) : Prop :=
  match e with
  | Result j => (lo <= j < hi)%nat
  | Review j word => (lo <= j < hi)%nat /\ words !! j = Some word
  | Submit j word => (lo < j <= hi)%nat /\ words !! j = Some word
  | _ => False
  end.

(** What a review may change: only the three word files, only by adding
    notes, only by consuming input. *)
Definition framed (w w' : world) : Prop :=
  (forall path,
      path <> _WORDS_PENDING_PATH -> path <> _WORDS_DONE_PATH ->
      path <> _WORDS_SKIPPED_PATH -> files w' !! path = files w !! path) /\
  decks (anki w') = decks (anki w) /\
  models (anki w') = models (anki w) /\
  notes (anki w) `prefix_of` notes (anki w') /\
  stdin w' `suffix_of` stdin w.

(** The files after [word] has been skipped: its line is appended to the
    skipped file and the pending file is rewritten without the lines whose
    trimmed content is [word]. *)
Definition skipped_files (fs : gmap string str) (word : str) : gmap string str :=
  let fs' := appended _WORDS_SKIPPED_PATH (word ++ [LF]) fs in
  <[_WORDS_PENDING_PATH :=
      concat (filter (fun line => strip line <> word)
                (file_lines (default [] (fs' !! _WORDS_PENDING_PATH))))]> fs'.

(** * Properties *)

(** * Strings *)

Lemma split_on_nonempty sep s : split_on sep s <> [].
Proof. destruct s as [|c s]; simpl; [done|]. by destruct (c =? sep). Qed.

Lemma split_on_snoc_sep sep s :
  split_on sep (s ++ [sep]) = split_on sep s ++ [[]].
Proof.
  induction s as [|c s IH]; simpl.
  - by rewrite N.eqb_refl.
  - rewrite IH. destruct (c =? sep); [done|].
    pose proof (split_on_nonempty sep s).
    by destruct (split_on sep s).
Qed.

Lemma universal_newlines_CR_LF s :
  universal_newlines (CR :: LF :: s) = LF :: universal_newlines s.
Proof. done. Qed.

Lemma universal_newlines_CR c s :
  c <> LF -> universal_newlines (CR :: c :: s) = LF :: universal_newlines (c :: s).
Proof.
  intros Hc. change (universal_newlines (CR :: c :: s))
    with (LF :: if c =? LF then universal_newlines s
                else universal_newlines (c :: s)).
  by apply N.eqb_neq in Hc as ->.
Qed.

Lemma universal_newlines_other c s :
  c <> CR -> universal_newlines (c :: s) = c :: universal_newlines s.
Proof. intros Hc. simpl. by apply N.eqb_neq in Hc as ->. Qed.

(** Case analysis following the recursion of [universal_newlines]. *)
Lemma text_ind (P : str -> Prop) :
  P [] -> P [CR] ->
  (forall s, P s -> P (CR :: LF :: s)) ->
  (forall c s, c <> LF -> P (c :: s) -> P (CR :: c :: s)) ->
  (forall c s, c <> CR -> P s -> P (c :: s)) ->
  forall s, P s.
Proof.
  intros Hnil Hcr Hcrlf Hcrc Hc s.
  assert (forall n s, (length s <= n)%nat -> P s) as H; [|by apply (H (length s))].
  clear s. induction n as [|n IH]; intros [|c s] Hlen; simpl in *;
    try done; try lia.
  destruct (decide (c = CR)) as [->|Hne]; [|apply Hc; [done|apply IH; lia]].
  destruct s as [|c' s]; [done|].
  destruct (decide (c' = LF)) as [->|Hne'].
  - apply Hcrlf, IH. simpl in *; lia.
  - apply Hcrc; [done|]. apply IH. simpl in *; lia.
Qed.

Lemma universal_newlines_no_CR s : CR ∉ universal_newlines s.
Proof.
  induction s as [| |s IH|c s Hc IH|c s Hc IH] using text_ind.
  - apply not_elem_of_nil.
  - by apply not_elem_of_cons; split; [|apply not_elem_of_nil].
  - rewrite universal_newlines_CR_LF. by apply not_elem_of_cons.
  - rewrite universal_newlines_CR by done. by apply not_elem_of_cons.
  - rewrite universal_newlines_other by done. by apply not_elem_of_cons.
Qed.

Lemma universal_newlines_id s : CR ∉ s -> universal_newlines s = s.
Proof.
  induction s as [|c s IH]; [done|]. intros [Hc Hs]%not_elem_of_cons. simpl.
  destruct (c =? CR) eqn:E; [apply N.eqb_eq in E; congruence|].
  by rewrite IH.
Qed.

Lemma universal_newlines_snoc_LF s :
  exists u, universal_newlines (s ++ [LF]) = u ++ [LF].
Proof.
  induction s as [| |s [u IH]|c s Hc [u IH]|c s Hc [u IH]] using text_ind.
  - by exists [].
  - by exists [].
  - exists (LF :: u). simpl app. by rewrite universal_newlines_CR_LF, IH.
  - exists (LF :: u). simpl app in *. by rewrite universal_newlines_CR, IH.
  - exists (c :: u). simpl app. by rewrite universal_newlines_other, IH.
Qed.

Lemma readlines_concat s : concat (readlines s) = s.
Proof.
  induction s as [|c s IH]; [done|]. simpl.
  destruct (c =? LF); simpl; [by rewrite IH|].
  destruct (readlines s) as [|l ls]; simpl in *; by rewrite <- IH.
Qed.

Lemma readlines_terminated b rest :
  LF ∉ b -> readlines (b ++ LF :: rest) = (b ++ [LF]) :: readlines rest.
Proof.
  induction b as [|c b IH]; simpl; [done|].
  intros [Hc Hb]%not_elem_of_cons.
  destruct (c =? LF) eqn:E; [apply N.eqb_eq in E; congruence|].
  by rewrite IH.
Qed.

Lemma readlines_unterminated u : u <> [] -> LF ∉ u -> readlines u = [u].
Proof.
  induction u as [|c u IH]; [done|]. intros _ [Hc Hu]%not_elem_of_cons. simpl.
  destruct (c =? LF) eqn:E; [apply N.eqb_eq in E; congruence|].
  destruct u as [|c' u]; [done|]. by rewrite IH.
Qed.

Lemma readlines_wf s : lines_wf (readlines s).
Proof.
  induction s as [|c s IH]; simpl; [constructor|].
  destruct (c =? LF) eqn:E.
  - apply N.eqb_eq in E as ->.
    apply (lines_wf_cons []); [apply not_elem_of_nil | done].
  - assert (c <> LF) as Hc by (intros ->; by rewrite N.eqb_refl in E).
    inversion IH as [|u Hu Hnl|b ls Hb Hls]; subst.
    + constructor; [done|]. by apply not_elem_of_cons; split;
        [|apply not_elem_of_nil].
    + constructor; [done|]. by apply not_elem_of_cons.
    + apply (lines_wf_cons (c :: b)); [by apply not_elem_of_cons | done].
Qed.

Lemma lines_wf_filter (P : str -> Prop) `{!forall l, Decision (P l)} ls :
  lines_wf ls -> lines_wf (filter P ls).
Proof.
  induction 1 as [|u Hu Hnl|b ls Hb Hls IH].
  - constructor.
  - rewrite filter_cons, filter_nil. destruct (decide (P u)); by constructor.
  - rewrite filter_cons. destruct (decide (P (b ++ [LF]))); [by constructor | done].
Qed.

Lemma readlines_of_lines ls : lines_wf ls -> readlines (concat ls) = ls.
Proof.
  induction 1 as [|u Hu Hnl|b ls Hb Hls IH]; simpl.
  - done.
  - rewrite app_nil_r. by apply readlines_unterminated.
  - rewrite <- app_assoc. simpl. rewrite readlines_terminated by done.
    by rewrite IH.
Qed.

Lemma filter_lines_no_CR (P : str -> Prop) `{!forall l, Decision (P l)} s :
  CR ∉ s -> CR ∉ concat (filter P (readlines s)).
Proof.
  intros Hs Hin. apply Hs. rewrite <- (readlines_concat s).
  apply list_elem_of_In, in_concat in Hin as (l & Hl & Hc).
  apply list_elem_of_In, in_concat. exists l. split; [|done].
  apply list_elem_of_In. apply list_elem_of_In in Hl.
  by apply list_elem_of_filter in Hl as [_ ?].
Qed.

(** Rewriting a file with some of its lines and reading it again gives
    those lines. *)
Lemma file_lines_rewrite (P : str -> Prop) `{!forall l, Decision (P l)} content :
  file_lines (concat (filter P (file_lines content)))
  = filter P (file_lines content).
Proof.
  unfold file_lines.
  rewrite universal_newlines_id
    by apply filter_lines_no_CR, universal_newlines_no_CR.
  apply readlines_of_lines, lines_wf_filter, readlines_wf.
Qed.

(** * The monad *)

Lemma bind_inr {A B} (m : M A) (f : A -> M B) w a :
  value (m w) = inr a ->
  bind m f w = Outcome (trace (m w) ++ trace (f a (final (m w))))
                 (final (f a (final (m w)))) (value (f a (final (m w)))).
Proof. unfold bind. by intros ->. Qed.

Lemma bind_inl {A B} (m : M A) (f : A -> M B) w e :
  value (m w) = inl e ->
  bind m f w = Outcome (trace (m w)) (final (m w)) (inl e).
Proof. unfold bind. by intros ->. Qed.

Lemma world_eta w : World (files w) (anki w) (stdin w) = w.
Proof. by destruct w. Qed.

Lemma after_nil {A} (o : outcome A) : after [] o = o.
Proof. by destruct o. Qed.

Lemma after_after {A} t1 t2 (o : outcome A) :
  after t1 (after t2 o) = after (t1 ++ t2) o.
Proof. unfold after. simpl. by rewrite app_assoc. Qed.

Lemma bind_after {A B} (m : M A) (f : A -> M B) w a :
  value (m w) = inr a -> bind m f w = after (trace (m w)) (f a (final (m w))).
Proof. apply bind_inr. Qed.

Lemma bind_ret {A B} (a : A) (f : A -> M B) w : bind (ret a) f w = f a w.
Proof. rewrite (bind_after _ _ _ a) by done. apply after_nil. Qed.

Lemma bind_lift_inr {A B} (a : A) (f : A -> M B) w :
  bind (lift (inr a)) f w = f a w.
Proof. rewrite (bind_after _ _ _ a) by done. apply after_nil. Qed.

Lemma bind_lift_inl {A B} e (f : A -> M B) w :
  bind (lift (inl e)) f w = Outcome [] w (inl e).
Proof. done. Qed.

Lemma bind_emit {B} ev (f : unit -> M B) w :
  bind (emit ev) f w = after [ev] (f tt w).
Proof. done. Qed.

Lemma bind_print {B} line (f : unit -> M B) w :
  bind (print line) f w = after [Print line] (f tt w).
Proof. done. Qed.

(** * The word list store *)

Lemma read_file_Some path w content :
  files w !! path = Some content ->
  read_file path w = Outcome [ReadFile path] w (inr (universal_newlines content)).
Proof. unfold read_file. by intros ->. Qed.

Lemma remove_word_run word w content :
  files w !! _WORDS_PENDING_PATH = Some content ->
  _remove_word_from_pending_file word w
  = let lines := filter (fun line => strip line <> word) (file_lines content) in
    Outcome [ReadFile _WORDS_PENDING_PATH;
             WriteFile _WORDS_PENDING_PATH (concat lines)]
      (World (<[_WORDS_PENDING_PATH := concat lines]> (files w)) (anki w) (stdin w))
      (inr tt).
Proof.
  intros Hf. unfold _remove_word_from_pending_file.
  erewrite bind_inr by (by rewrite (read_file_Some _ _ _ Hf)).
  by rewrite (read_file_Some _ _ _ Hf).
Qed.

(** C5. After [_remove_word_from_pending_file word], the lines of the
    pending file are exactly the earlier lines whose trimmed content is
    not [word], in their order: no line equal to [word] is left and every
    other line is kept unchanged.  No other file is touched. *)
Theorem remove_pending_correct word w content :
  files w !! _WORDS_PENDING_PATH = Some content ->
  let o := _remove_word_from_pending_file word w in
  value o = inr tt /\
  exists content',
    files (final o) !! _WORDS_PENDING_PATH = Some content' /\
    file_lines content'
    = filter (fun line => strip line <> word) (file_lines content) /\
    (forall line, line ∈ file_lines content' -> strip line <> word) /\
    (forall line, line ∈ file_lines content -> strip line <> word ->
                  line ∈ file_lines content') /\
    file_lines content' `sublist_of` file_lines content /\
    (forall path, path <> _WORDS_PENDING_PATH ->
                  files (final o) !! path = files w !! path).
Proof.
  intros Hf o. subst o. rewrite (remove_word_run _ _ _ Hf). simpl.
  split; [done|]. eexists. split; [apply lookup_insert_eq|].
  rewrite file_lines_rewrite. split; [done|]. repeat split.
  - by intros line [? _]%list_elem_of_filter.
  - intros line ? ?. by apply list_elem_of_filter.
  - apply sublist_filter.
  - intros path Hp. by rewrite lookup_insert_ne.
Qed.

Lemma remove_pending_correct_witness :
  let w := World {[ _WORDS_PENDING_PATH := py "neko\ninu\nneko \ntori" ]}
             (MkCollection ∅ ∅ []) [] in
  exists content',
    files (final (_remove_word_from_pending_file (py "neko") w))
      !! _WORDS_PENDING_PATH = Some content' /\
    file_lines content' = [py "inu\n"; py "tori"].
Proof.
  intros w.
  destruct (remove_pending_correct (py "neko") w (py "neko\ninu\nneko \ntori")
              eq_refl) as (_ & content' & Hc & Hl & _).
  exists content'. split; [exact Hc|]. rewrite Hl. vm_compute. reflexivity.
Defined.

Lemma append_new_words_run new_words existing_words w content :
  files w !! _WORDS_PENDING_PATH = Some content ->
  let o := append_new_words new_words existing_words w in
  value o = inr tt /\
  final o = World (<[_WORDS_PENDING_PATH :=
                      content ++ appended_text new_words existing_words]> (files w))
              (anki w) (stdin w).
Proof.
  revert w content. induction new_words as [|word rest IH]; intros w content Hf.
  - simpl. split; [done|]. unfold appended_text. simpl.
    rewrite app_nil_r, insert_id by done. by rewrite world_eta.
  - cbn [append_new_words]. unfold appended_text.
    rewrite filter_cons. destruct (decide (word ∉ existing_words)) as [Hn|Hin].
    + rewrite bool_decide_eq_false_2 by done.
      unfold bind at 1. simpl.
      edestruct (IH (World (appended _WORDS_PENDING_PATH (word ++ [LF]) (files w))
                       (anki w) (stdin w))) as [Hv Hfin].
      { simpl. apply lookup_insert_eq. }
      rewrite Hv, Hfin. simpl. split; [done|]. unfold appended.
      rewrite Hf. simpl. rewrite insert_insert_eq.
      unfold appended_text. by rewrite <- !app_assoc.
    + rewrite bool_decide_eq_true_2 by (by apply dec_stable).
      unfold bind at 1. simpl.
      destruct (IH w content Hf) as [Hv Hfin]. by rewrite Hv, Hfin.
Qed.

Lemma append_pending_run new_words existing_words w :
  let o := _append_new_pending_words_to_file new_words existing_words w in
  value o = inr tt /\
  final o = World (<[_WORDS_PENDING_PATH :=
                      default [] (files w !! _WORDS_PENDING_PATH)
                      ++ appended_text new_words existing_words]> (files w))
              (anki w) (stdin w).
Proof.
  unfold _append_new_pending_words_to_file, bind. simpl.
  edestruct (append_new_words_run new_words existing_words
               (World (<[_WORDS_PENDING_PATH :=
                          default [] (files w !! _WORDS_PENDING_PATH)]> (files w))
                  (anki w) (stdin w))) as [Hv Hfin].
  { simpl. apply lookup_insert_eq. }
  rewrite Hv, Hfin. simpl. by rewrite insert_insert_eq.
Qed.





(** * Loading the pending words *)

Lemma load_pending_run w content :
  files w !! _WORDS_PENDING_PATH = Some content ->
  _load_pending_words_from_file w
  = Outcome [ReadFile _WORDS_PENDING_PATH] w
      (inr (split_on LF (universal_newlines content))).
Proof.
  intros Hf. unfold _load_pending_words_from_file, bind.
  by rewrite (read_file_Some _ _ _ Hf).
Qed.

(** * Kana *)

Lemma kana_char_spec c : kana_char c = true <-> in_kana_blocks c.
Proof.
  unfold kana_char, in_kana_blocks.
  rewrite orb_true_iff, !andb_true_iff, !N.leb_le. tauto.
Qed.

(** C6. [is_kana s] holds exactly when every character of [s] lies in the
    hiragana or the katakana block; one character outside both makes it
    false; and the request reads the basic template for a kana word and
    the cloze template for any other word. *)
Theorem is_kana_spec s :
  (is_kana s = true <-> Forall in_kana_blocks s) /\
  (forall s1 c s2, s = s1 ++ c :: s2 -> ~ in_kana_blocks c -> is_kana s = false) /\
  (forall llm n fs,
      _request_flashcards_from_llm llm n s fs
      = match fs !! (if is_kana s then _BASIC_PROMPT_PATH else _CLOZE_PROMPT_PATH) with
        | Some template =>
            llm n (replace (py "{{WORD}}") s (universal_newlines template))
        | None =>
            inl (FileNotFoundError
                   (if is_kana s then _BASIC_PROMPT_PATH else _CLOZE_PROMPT_PATH))
        end).
Proof.
  assert (is_kana s = true <-> Forall in_kana_blocks s) as Hiff.
  { unfold is_kana. rewrite forallb_forall, Forall_forall.
    split; intros H c Hc.
    - apply kana_char_spec, H. by apply list_elem_of_In.
    - apply kana_char_spec, H. by apply list_elem_of_In. }
  split; [done|]. split; [|done].
  intros s1 c s2 -> Hc. apply not_true_is_false. intros Hk%Hiff.
  apply Forall_app in Hk as [_ Hk]. by inversion Hk.
Qed.

Lemma is_kana_spec_witness :
  is_kana [0x306D; 0x30B3] = true /\ is_kana [0x306D; 0x732B; 0x30B3] = false.
Proof.
  split.
  - apply (is_kana_spec [0x306D; 0x30B3]).
    repeat constructor; unfold in_kana_blocks; lia.
  - apply (proj1 (proj2 (is_kana_spec [0x306D; 0x732B; 0x30B3]))
             [0x306D] 0x732B [0x30B3] eq_refl).
    unfold in_kana_blocks. lia.
Defined.

(** * New-word ingestion *)

Lemma swap_Permutation {A} (x : list A) i j : swap x i j ≡ₚ x.
Proof.
  unfold swap. destruct (x !! i) as [a|] eqn:Hi; [|done].
  destruct (x !! j) as [b|] eqn:Hj; [|done].
  by apply Permutation_insert_swap.
Qed.

Lemma shuffle_from_Permutation {A} rng i (x : list A) :
  shuffle_from rng i x ≡ₚ x.
Proof.
  revert x. induction i as [|i IH]; intros x; simpl; [done|].
  by rewrite IH, swap_Permutation.
Qed.

Lemma shuffle_Permutation {A} rng (x : list A) : shuffle rng x ≡ₚ x.
Proof. apply shuffle_from_Permutation. Qed.

Lemma lstrip_head c s s' : lstrip s = c :: s' -> isspace c = false.
Proof.
  induction s as [|a s IH]; simpl; [done|].
  destruct (isspace a) eqn:Ha; [exact IH|]. by intros [= <- _].
Qed.

Lemma split_ws_nonempty c s : isspace c = false -> split_ws (c :: s) <> [].
Proof.
  intros Hc. simpl. rewrite Hc. destruct s as [|c' s]; [done|].
  destruct (isspace c'); [done|]. by destruct (split_ws (c' :: s)).
Qed.

(** The [[0]] of source line 54 never raises: a stripped line that is not
    empty has a first token. *)
Lemma first_token_exists line :
  strip line <> [] -> exists token, split_ws (strip line) !! 0%nat = Some token.
Proof.
  intros Hne. destruct (strip line) as [|c s] eqn:Hs; [done|].
  apply lstrip_head in Hs.
  pose proof (split_ws_nonempty c s Hs).
  destruct (split_ws (c :: s)) as [|t ts]; [done|]. by exists t.
Qed.

Lemma elem_of_tokens_of_lines word lines :
  word ∈ tokens_of_lines lines <->
  exists line, line ∈ lines /\ strip line <> []
               /\ startswith (py "#") (strip line) = false
               /\ split_ws (strip line) !! 0%nat = Some word.
Proof.
  unfold tokens_of_lines. rewrite list_elem_of_fmap. split.
  - intros (line & -> & [[Hne Hc] Hin]%list_elem_of_filter).
    exists line. repeat split; try done.
    destruct (first_token_exists line Hne) as [t Ht].
    by destruct (split_ws (strip line)).
  - intros (line & Hin & Hne & Hc & Ht). exists line. split.
    + by destruct (split_ws (strip line)); simplify_eq/=.
    + apply list_elem_of_filter. by split.
Qed.

(** C7. For the input "# comment\n\nword1 reading\nword1\nword2\n" the
    extracted set is {word1, word2}.  For every input and every random
    source, the returned list is a permutation of the elements of the
    extracted set, without duplicates; the set holds the first token of
    each line that is neither blank nor a comment. *)
Theorem get_new_words_spec rng :
  let sample := py "# comment\n\nword1 reading\nword1\nword2\n" in
  (list_to_set (tokens_of_lines (split_on LF sample)) : gset str)
  = {[ py "word1"; py "word2" ]} /\
  _get_new_words_from_multiline_string rng sample ≡ₚ [py "word1"; py "word2"] /\
  forall word_string,
    let extracted : gset str :=
      list_to_set (tokens_of_lines (split_on LF word_string)) in
    let words := _get_new_words_from_multiline_string rng word_string in
    words ≡ₚ elements extracted /\
    NoDup words /\
    (forall word, word ∈ words <-> word ∈ extracted) /\
    (forall word,
        word ∈ extracted <->
        exists line, line ∈ split_on LF word_string /\ strip line <> []
                     /\ startswith (py "#") (strip line) = false
                     /\ split_ws (strip line) !! 0%nat = Some word).
Proof.
  assert (forall word_string,
             _get_new_words_from_multiline_string rng word_string
             ≡ₚ elements (list_to_set (tokens_of_lines (split_on LF word_string))
                            : gset str)) as Hperm.
  { intros. apply shuffle_Permutation. }
  intros sample.
  assert ((list_to_set (tokens_of_lines (split_on LF sample)) : gset str)
          = {[ py "word1"; py "word2" ]}) as Hset.
  { apply set_eq. intros word. rewrite elem_of_list_to_set.
    assert (tokens_of_lines (split_on LF sample)
            = [py "word1"; py "word1"; py "word2"]) as ->
      by (vm_compute; reflexivity).
    rewrite !elem_of_cons, elem_of_nil, elem_of_union, !elem_of_singleton.
    tauto. }
  split; [done|]. split.
  - rewrite Hperm, Hset. rewrite elements_union_singleton, elements_singleton.
    + done.
    + apply not_elem_of_singleton. by vm_compute.
  - intros word_string extracted words. subst extracted words.
    split; [apply Hperm|]. split; [|split].
    + rewrite Hperm. apply NoDup_elements.
    + intros word. by rewrite Hperm, elem_of_elements.
    + intros word. rewrite elem_of_list_to_set. apply elem_of_tokens_of_lines.
Qed.


(** * The interactive selector *)

Section Selector.
Context (unicodedata : char -> numeric_type).

Lemma selects_from_empty count s ds :
  selects_from unicodedata count ∅ s ds <-> selects unicodedata count s ds.
Proof.
  unfold selects_from, selects. split; [tauto|]. intros [? ?].
  repeat split; try done. apply Forall_forall. intros d _.
  apply not_elem_of_empty.
Qed.

Lemma selects_from_cons count seen c s d ds :
  selects_from unicodedata count seen (c :: s) (d :: ds) <->
  numeric unicodedata c = Decimal d /\ (1 <= d <= count)%nat /\ (d ∉ seen)
  /\ selects_from unicodedata count ({[d]} ∪ seen) s ds.
Proof.
  unfold selects_from. rewrite Forall2_cons, NoDup_cons, !Forall_forall.
  split.
  - intros ([[? ?] ?] & [Hd ?] & Hs).
    split; [done|]. split; [done|]. split; [apply Hs; by left|].
    split; [done|]. split; [done|].
    intros x Hx [->%elem_of_singleton|Hin]%elem_of_union; [done|].
    revert Hin. apply Hs. by right.
  - intros (? & ? & ? & ? & ? & Hs).
    split; [done|]. split; [split; [|done]|].
    + intros Hd. apply (Hs d Hd), elem_of_union_l. by apply elem_of_singleton.
    + intros x [->|Hx]%elem_of_cons; [done|].
      intros Hin. by apply (Hs x Hx), elem_of_union_r.
Qed.

(** One iteration of the validation loop. *)
Lemma validate_cons count seen c s w :
  validate unicodedata count seen (c :: s) w
  = match numeric unicodedata c with
    | NotDigit => Outcome [invalid_input c] w (inr false)
    | Digit => Outcome [] w (inl (int_error c))
    | Decimal d =>
        if (count <? d)%nat || (d =? 0)%nat || bool_decide (d ∈ seen)
        then Outcome [invalid_input c] w (inr false)
        else validate unicodedata count ({[d]} ∪ seen) s w
    end.
Proof.
  cbn [validate]. unfold isdigit, int.
  destruct (numeric unicodedata c) as [d| |]; cbn [negb]; try done.
  rewrite bind_lift_inr.
  by destruct ((count <? d)%nat || (d =? 0)%nat || bool_decide (d ∈ seen)).
Qed.

Lemma selects_from_nil_inv count seen c s :
  ~ selects_from unicodedata count seen (c :: s) [].
Proof. intros [Hf _]. inversion Hf. Qed.

(** The validation loop leaves the world as it is, and what it prints
    and returns does not depend on the world: it accepts exactly the
    selections, reports the first offending character otherwise, and
    raises when that character is a digit that is not a decimal. *)
Lemma validate_cases count seen s :
  exists t v,
    (forall w, validate unicodedata count seen s w = Outcome t w v) /\
    ((v = inr true /\ t = []
      /\ exists ds, selects_from unicodedata count seen s ds)
     \/ (v = inr false
         /\ (exists c, c ∈ s /\ t = [invalid_input c])
         /\ ~ exists ds, selects_from unicodedata count seen s ds)
     \/ (exists c, c ∈ s /\ numeric unicodedata c = Digit
                   /\ v = inl (int_error c) /\ t = []
                   /\ ~ exists ds, selects_from unicodedata count seen s ds)).
Proof.
  revert seen. induction s as [|c s IH]; intros seen.
  { exists [], (inr true). split; [done|]. left. repeat split.
    exists []. repeat constructor. }
  destruct (numeric unicodedata c) as [d| |] eqn:Hnum.
  - destruct ((count <? d)%nat || (d =? 0)%nat || bool_decide (d ∈ seen))
      eqn:Hbad.
    + exists [invalid_input c], (inr false). split.
      { intros w. by rewrite validate_cons, Hnum, Hbad. }
      right; left. split; [done|]. split.
      * exists c. split; [by left|done].
      * intros [[|d' ds] Hsel]; [by apply selects_from_nil_inv in Hsel|].
        apply selects_from_cons in Hsel as (Hd & Hr & Hseen & _).
        rewrite Hnum in Hd. injection Hd as <-.
        apply orb_true_iff in Hbad as [Hbad|Hbad];
          [apply orb_true_iff in Hbad as [Hbad|Hbad]|].
        -- apply Nat.ltb_lt in Hbad. lia.
        -- apply Nat.eqb_eq in Hbad. lia.
        -- by apply bool_decide_eq_true in Hbad.
    + destruct (IH ({[d]} ∪ seen)) as (t & v & Hrun & Hcases).
      exists t, v. split.
      { intros w. by rewrite validate_cons, Hnum, Hbad. }
      apply orb_false_iff in Hbad as [Hbad Hseen].
      apply orb_false_iff in Hbad as [Hgt Hz].
      apply Nat.ltb_ge in Hgt. apply Nat.eqb_neq in Hz.
      apply bool_decide_eq_false in Hseen.
      destruct Hcases as [(Hv & Ht & ds & Hds)|[(Hv & (c' & Hc' & Ht) & Hno)
                                                |(c' & Hc' & Hn & Hv & Ht & Hno)]].
      * left. split; [done|]. split; [done|]. exists (d :: ds).
        apply selects_from_cons. split; [done|]. split; [lia|]. by split.
      * right; left. split; [done|]. split.
        -- exists c'. split; [by right|done].
        -- intros [[|d' ds] Hsel]; [by apply selects_from_nil_inv in Hsel|].
           apply selects_from_cons in Hsel as (Hd & _ & _ & Hsel).
           rewrite Hnum in Hd. injection Hd as <-. apply Hno. by exists ds.
      * right; right. exists c'. split; [by right|]. split; [done|].
        split; [done|]. split; [done|].
        intros [[|d' ds] Hsel]; [by apply selects_from_nil_inv in Hsel|].
        apply selects_from_cons in Hsel as (Hd & _ & _ & Hsel).
        rewrite Hnum in Hd. injection Hd as <-. apply Hno. by exists ds.
  - exists [], (inl (int_error c)). split.
    { intros w. by rewrite validate_cons, Hnum. }
    right; right. exists c. split; [by left|].
    split; [done|]. split; [done|]. split; [done|].
    intros [[|d' ds] Hsel]; [by apply selects_from_nil_inv in Hsel|].
    apply selects_from_cons in Hsel as (Hd & _). congruence.
  - exists [invalid_input c], (inr false). split.
    { intros w. by rewrite validate_cons, Hnum. }
    right; left. split; [done|]. split.
    + exists c. split; [by left|done].
    + intros [[|d' ds] Hsel]; [by apply selects_from_nil_inv in Hsel|].
      apply selects_from_cons in Hsel as (Hd & _). congruence.
Qed.

Context (word : str) (flashcards : list flashcard).
Context (deck_id cloze_model_id basic_model_id : Z).

Lemma getitem_valid {A} (l : list A) d :
  (1 <= d <= length l)%nat ->
  exists a, l !! (d - 1)%nat = Some a /\ getitem l (Z.of_nat d - 1) = inr a.
Proof.
  intros Hd. destruct (lookup_lt_is_Some_2 l (d - 1)%nat) as [a Ha]; [lia|].
  exists a. split; [done|]. unfold getitem.
  destruct (Z.of_nat d - 1 <? 0)%Z eqn:E; [apply Z.ltb_lt in E; lia|].
  rewrite E. replace (Z.to_nat (Z.of_nat d - 1)) with (d - 1)%nat by lia.
  by rewrite Ha.
Qed.

Lemma add_note_run card w :
  (if is_kana word
   then _add_flashcard_to_deck deck_id basic_model_id
          [(_BASIC_JAPANESE_FIELD, example_sentence card);
           (_BASIC_ENGLISH_FIELD, english card)]
   else _add_flashcard_to_deck deck_id cloze_model_id
          [(_CLOZE_EXAMPLE_SENTENCE_FIELD, example_sentence card);
           (_CLOZE_ENGLISH_FIELD, english card)]) w
  = let note := note_for word deck_id cloze_model_id basic_model_id card in
    Outcome [AddNote note]
      (World (files w) (with_notes (anki w) [note]) (stdin w)) (inr tt).
Proof. unfold note_for. by destruct (is_kana word). Qed.

Lemma with_notes_nil c : with_notes c [] = c.
Proof. destruct c. unfold with_notes. simpl. by rewrite app_nil_r. Qed.

Lemma with_notes_app c l1 l2 :
  with_notes (with_notes c l1) l2 = with_notes c (l1 ++ l2).
Proof. unfold with_notes. simpl. by rewrite app_assoc. Qed.

(** Creating the cards of a validated selection never raises: one note
    per digit, in input order. *)
Lemma create_flashcards_run s ds w :
  Forall2 (fun c d => numeric unicodedata c = Decimal d
                      /\ (1 <= d <= length flashcards)%nat) s ds ->
  exists chosen,
    Forall2 (fun d card => flashcards !! (d - 1)%nat = Some card) ds chosen /\
    create_flashcards unicodedata word flashcards deck_id cloze_model_id
      basic_model_id s w
    = Outcome
        (creation_trace word deck_id cloze_model_id basic_model_id s chosen)
        (World (files w)
           (with_notes (anki w)
              (note_for word deck_id cloze_model_id basic_model_id <$> chosen))
           (stdin w))
        (inr tt).
Proof.
  intros Hsel. revert w.
  induction Hsel as [|c d s ds [Hnum Hd] _ IH]; intros w.
  - exists []. split; [constructor|]. simpl.
    by rewrite with_notes_nil, world_eta.
  - destruct (getitem_valid flashcards d Hd) as (card & Hcard & Hget).
    destruct (IH (World (files w)
                    (with_notes (anki w)
                       [note_for word deck_id cloze_model_id basic_model_id card])
                    (stdin w))) as (chosen & Hchosen & Hrun).
    exists (card :: chosen). split; [by constructor|].
    cbn [create_flashcards]. rewrite bind_print. unfold int.
    rewrite Hnum, bind_lift_inr, Hget, bind_lift_inr.
    rewrite (bind_after _ _ _ tt) by (by rewrite add_note_run).
    rewrite add_note_run. cbn [trace final]. rewrite Hrun.
    unfold after. cbn [trace final value files anki stdin].
    by rewrite with_notes_app.
Qed.


Lemma print_options_run i cards :
  exists t, Forall is_print t /\
            forall w, print_options i cards w = Outcome t w (inr tt).
Proof.
  revert i. induction cards as [|card cards IH]; intros i.
  - by exists [].
  - destruct (IH (S i)) as (t & Ht & Hrun).
    exists (Print (str_of_nat (i + 1) ++ py "   " ++ example_sentence card)
            :: Print (py "    " ++ english card ++ py "\n") :: t).
    split; [by repeat constructor|].
    intros w. cbn [print_options]. by rewrite !bind_print, Hrun.
Qed.


End Selector.

Section SelectionLoop.
Context (unicodedata : char -> numeric_type).
Context (word : str) (flashcards : list flashcard).
Context (deck_id cloze_model_id basic_model_id : Z).

Local Abbreviation loop :=
  (selection_loop unicodedata word flashcards deck_id cloze_model_id
     basic_model_id).

Lemma bind_open_write_append {B} path text (f : unit -> M B) w :
  bind (open_append path) (fun _ => bind (write_append path text) f) w
  = after [OpenAppend path; AppendFile path text]
      (f tt (World (appended path text (files w)) (anki w) (stdin w))).
Proof.
  unfold bind, open_append, write_append, after, appended.
  cbn [value final trace files anki stdin].
  by rewrite lookup_insert_eq, insert_insert_eq.
Qed.

Lemma input_nil text w :
  stdin w = [] -> input text w = Outcome [Prompt text] w (inl EOFError).
Proof. unfold input. by intros ->. Qed.

Lemma input_cons text w line rest :
  stdin w = line :: rest ->
  input text w
  = Outcome [Prompt text] (World (files w) (anki w) rest) (inr line).
Proof. unfold input. by intros ->. Qed.

(** End of input: the prompt is shown and [input] raises. *)
Lemma loop_eof lines w :
  stdin w = [] ->
  loop lines w = Outcome [Prompt selection_prompt] w (inl EOFError).
Proof.
  intros Hin. destruct lines; cbn [selection_loop];
    rewrite (bind_inl _ _ _ EOFError) by (by rewrite input_nil);
    by rewrite input_nil.
Qed.

(** Empty input: the word is skipped. *)
Lemma loop_skip rest w :
  stdin w = [] :: rest ->
  loop (stdin w) w
  = after [Prompt selection_prompt; OpenAppend _WORDS_SKIPPED_PATH;
           AppendFile _WORDS_SKIPPED_PATH (word ++ [LF])]
      (_remove_word_from_pending_file word
         (World (appended _WORDS_SKIPPED_PATH (word ++ [LF]) (files w))
            (anki w) rest)).
Proof.
  intros Hin. rewrite Hin at 1. cbn [selection_loop].
  rewrite (bind_after _ _ _ []) by (by rewrite (input_cons _ _ _ _ Hin)).
  rewrite (input_cons _ _ _ _ Hin). cbn [trace final].
  rewrite bool_decide_eq_true_2 by done.
  rewrite bind_open_write_append, after_after. done.
Qed.

(** A line that is not empty is validated in the world where it has
    been consumed. *)
Lemma loop_nonempty s rest w :
  stdin w = s :: rest -> s <> [] ->
  loop (stdin w) w
  = after [Prompt selection_prompt]
      (bind (validate unicodedata (length flashcards) ∅ s)
         (fun valid =>
            if negb valid then loop rest
            else
              bind (create_flashcards unicodedata word flashcards deck_id
                      cloze_model_id basic_model_id s)
                (fun _ =>
                   bind (open_append _WORDS_DONE_PATH)
                     (fun _ =>
                        bind (write_append _WORDS_DONE_PATH (word ++ [LF]))
                          (fun _ => _remove_word_from_pending_file word))))
         (World (files w) (anki w) rest)).
Proof.
  intros Hin Hne. rewrite Hin at 1. cbn [selection_loop].
  rewrite (bind_after _ _ _ s) by (by rewrite (input_cons _ _ _ _ Hin)).
  rewrite (input_cons _ _ _ _ Hin). cbn [trace final].
  by rewrite bool_decide_eq_false_2 by done.
Qed.

(** The three ways a non-empty line is handled. *)
Lemma loop_cases s rest w :
  stdin w = s :: rest -> s <> [] ->
  let w1 := World (files w) (anki w) rest in
  (exists ds chosen,
      selects unicodedata (length flashcards) s ds /\
      Forall2 (fun d card => flashcards !! (d - 1)%nat = Some card) ds chosen /\
      loop (stdin w) w
      = after (Prompt selection_prompt
               :: creation_trace word deck_id cloze_model_id basic_model_id
                    s chosen
               ++ [OpenAppend _WORDS_DONE_PATH;
                   AppendFile _WORDS_DONE_PATH (word ++ [LF])])
          (_remove_word_from_pending_file word
             (World (appended _WORDS_DONE_PATH (word ++ [LF]) (files w))
                (with_notes (anki w)
                   (note_for word deck_id cloze_model_id basic_model_id
                      <$> chosen))
                rest)))
  \/ ((~ exists ds, selects unicodedata (length flashcards) s ds) /\
      exists c, c ∈ s /\
        loop (stdin w) w
        = after [Prompt selection_prompt; invalid_input c] (loop rest w1))
  \/ ((~ exists ds, selects unicodedata (length flashcards) s ds) /\
      exists c, c ∈ s /\ numeric unicodedata c = Digit /\
        loop (stdin w) w
        = Outcome [Prompt selection_prompt] w1 (inl (int_error c))).
Proof.
  intros Hin Hne w1. rewrite (loop_nonempty s rest w Hin Hne). fold w1.
  destruct (validate_cases unicodedata (length flashcards) ∅ s)
    as (t & v & Hrun
        & [(-> & -> & ds & Hds)|[(-> & (c & Hc & ->) & Hno)
                                 |(c & Hc & Hnum & -> & -> & Hno)]]).
  - left. apply selects_from_empty in Hds.
    destruct (create_flashcards_run unicodedata word flashcards deck_id
                cloze_model_id basic_model_id s ds w1 (proj1 Hds))
      as (chosen & Hchosen & Hcreate).
    exists ds, chosen. split; [done|]. split; [done|].
    rewrite (bind_after _ _ _ true) by (by rewrite Hrun).
    rewrite Hrun. cbn [trace final negb].
    rewrite (bind_after _ _ _ tt) by (by rewrite Hcreate).
    rewrite Hcreate. cbn [trace final].
    rewrite bind_open_write_append, !after_after.
    by rewrite <- app_assoc.
  - right; left. split.
    { intros [ds Hds]. apply Hno. exists ds. by apply selects_from_empty. }
    exists c. split; [done|].
    rewrite (bind_after _ _ _ false) by (by rewrite Hrun).
    rewrite Hrun. cbn [trace final negb]. by rewrite after_after.
  - right; right. split.
    { intros [ds Hds]. apply Hno. exists ds. by apply selects_from_empty. }
    exists c. split; [done|]. split; [done|].
    rewrite (bind_inl _ _ _ (int_error c)) by (by rewrite Hrun).
    by rewrite Hrun.
Qed.

Lemma remove_word_cases w :
  (files w !! _WORDS_PENDING_PATH = None /\
   _remove_word_from_pending_file word w
   = Outcome [] w (inl (FileNotFoundError _WORDS_PENDING_PATH)))
  \/ (exists content,
         files w !! _WORDS_PENDING_PATH = Some content /\
         _remove_word_from_pending_file word w
         = let lines := filter (fun line => strip line <> word)
                          (file_lines content) in
           Outcome [ReadFile _WORDS_PENDING_PATH;
                    WriteFile _WORDS_PENDING_PATH (concat lines)]
             (World (<[_WORDS_PENDING_PATH := concat lines]> (files w))
                (anki w) (stdin w))
             (inr tt)).
Proof.
  destruct (files w !! _WORDS_PENDING_PATH) as [content|] eqn:Hf.
  - right. exists content. split; [done|]. by apply remove_word_run.
  - left. split; [done|].
    unfold _remove_word_from_pending_file, bind, read_file. by rewrite Hf.
Qed.



End SelectionLoop.

Section Review.
Context (unicodedata : char -> numeric_type).
Context (word : str) (flashcards : list flashcard).
Context (deck_id cloze_model_id basic_model_id : Z).

Local Abbreviation loop :=
  (selection_loop unicodedata word flashcards deck_id cloze_model_id
     basic_model_id).
Local Abbreviation review :=
  (_create_flashcard_interactively unicodedata word flashcards deck_id
     cloze_model_id basic_model_id).

(** The review prints the candidates and then runs the selection loop on
    the lines still to be typed. *)
Lemma review_run :
  exists header, Forall is_print header /\
                 forall w, review w = after header (loop (stdin w) w).
Proof.
  destruct (print_options_run 0 flashcards) as (t & Ht & Hrun).
  exists (Print (py "Flashcard options: " ++ word ++ py "\n") :: t).
  split; [by constructor|]. intros w.
  unfold _create_flashcard_interactively. rewrite bind_print.
  rewrite (bind_after _ _ _ tt) by (by rewrite Hrun).
  rewrite Hrun. cbn [trace final]. by rewrite after_after.
Qed.


Lemma decided_removed w o content' :
  decided word w o ->
  files (final o) !! _WORDS_PENDING_PATH = Some content' ->
  forall line, line ∈ file_lines content' -> strip line <> word.
Proof.
  intros (path & pending & new_notes & _ & _ & _ & Hfiles & _) Hc line.
  rewrite Hfiles, lookup_insert_eq in Hc. injection Hc as <-.
  rewrite file_lines_rewrite. by intros [? _]%list_elem_of_filter.
Qed.

End Review.




Lemma validate_accepts unicodedata count s w :
  value (validate unicodedata count ∅ s w) = inr true
  <-> exists ds, selects unicodedata count s ds.
Proof.
  destruct (validate_cases unicodedata count ∅ s)
    as (t & v & Hrun & [(-> & _ & ds & Hds)|[(-> & _ & Hno)
                                            |(c & _ & _ & -> & _ & Hno)]]);
    rewrite Hrun; cbn [value].
  - split; [|done]. intros _. exists ds. by apply selects_from_empty.
  - split; [done|]. intros [ds Hds]. destruct Hno. exists ds.
    by apply selects_from_empty.
  - split; [done|]. intros [ds Hds]. destruct Hno. exists ds.
    by apply selects_from_empty.
Qed.



Lemma loop_prompts_first
    unicodedata word flashcards deck_id cloze_model_id basic_model_id lines w :
  exists t,
    trace (selection_loop unicodedata word flashcards deck_id cloze_model_id
             basic_model_id lines w) = Prompt selection_prompt :: t.
Proof.
  destruct lines; cbn [selection_loop]; unfold bind at 1, input;
    destruct (stdin w); cbn [value trace]; eauto.
Qed.

(** A rejected line costs nothing but the line: the offending character is
    reported, files and collection stay as they are, and the selector
    prompts again. *)
Lemma rejected_input_reprompts
    unicodedata word flashcards deck_id cloze_model_id basic_model_id s rest w :
  stdin w = s :: rest -> s <> [] ->
  value (validate unicodedata (length flashcards) ∅ s w) = inr false ->
  exists header c t,
    Forall is_print header /\ c ∈ s /\
    let o := selection_loop unicodedata word flashcards deck_id cloze_model_id
               basic_model_id rest (World (files w) (anki w) rest) in
    _create_flashcard_interactively unicodedata word flashcards deck_id
      cloze_model_id basic_model_id w
    = after (header ++ [Prompt selection_prompt; invalid_input c]) o
    /\ trace o = Prompt selection_prompt :: t.
Proof.
  intros Hin Hne Hval.
  destruct (review_run unicodedata word flashcards deck_id cloze_model_id
              basic_model_id) as (header & Hh & Hrun).
  destruct (loop_prompts_first unicodedata word flashcards deck_id
              cloze_model_id basic_model_id rest
              (World (files w) (anki w) rest)) as [t Ht].
  destruct (validate_cases unicodedata (length flashcards) ∅ s)
    as (tv & v & Hv & Hcases).
  rewrite Hv in Hval. cbn [value] in Hval. subst v.
  destruct (loop_cases unicodedata word flashcards deck_id cloze_model_id
              basic_model_id s rest w Hin Hne)
    as [(ds & _ & Hds & _)|[(_ & c & Hc & Hloop)|(Hno & c & Hc & Hnum & Hloop)]].
  - destruct Hcases as [(? & _)|[(_ & _ & Hno)|(? & _ & _ & ? & _)]];
      try done. destruct Hno. exists ds. by apply selects_from_empty.
  - exists header, c, t. split; [done|]. split; [done|]. split; [|done].
    by rewrite Hrun, Hloop, after_after.
  - exfalso. rewrite (loop_nonempty _ _ _ _ _ _ s rest w Hin Hne) in Hloop.
    rewrite (bind_after _ _ _ false) in Hloop by (by rewrite Hv).
    rewrite Hv in Hloop. cbn [trace final negb] in Hloop.
    rewrite after_after in Hloop.
    apply (f_equal trace) in Hloop. cbn [after trace] in Hloop.
    destruct Hcases as [(? & _)|[(_ & (c' & _ & ->) & _)|(? & _ & _ & ? & _)]];
      try done;
      destruct (loop_prompts_first unicodedata word flashcards deck_id
                  cloze_model_id basic_model_id rest
                  (World (files w) (anki w) rest)) as [t' Ht'];
      rewrite Ht' in Hloop; discriminate.
Qed.

(** C4. At the one-character input SUPERSCRIPT TWO (U+00B2) the selector
    neither reports the character nor prompts again: [isdigit] lets the
    character through and [int] raises ValueError, which ends the review.
    Files and collection are as before; only the line is consumed. *)
Theorem selector_raises_on_superscript_digit
    unicodedata word flashcards deck_id cloze_model_id basic_model_id
    fs collection rest :
  exists header,
    Forall is_print header /\
    _create_flashcard_interactively unicodedata word flashcards deck_id
      cloze_model_id basic_model_id (World fs collection ([0xB2] :: rest))
    = Outcome (header ++ [Prompt selection_prompt])
        (World fs collection rest) (inl (int_error 0xB2)).
Proof.
  destruct (review_run unicodedata word flashcards deck_id cloze_model_id
              basic_model_id) as (header & Hh & Hrun).
  exists header. split; [done|]. rewrite Hrun.
  rewrite (loop_nonempty unicodedata word flashcards deck_id cloze_model_id
             basic_model_id [0xB2] rest (World fs collection ([0xB2] :: rest))
             eq_refl) by done.
  cbn [files anki].
  assert (numeric unicodedata 0xB2 = Digit) as Hnum by reflexivity.
  rewrite (bind_inl _ _ _ (int_error 0xB2)) by (by rewrite validate_cons, Hnum).
  rewrite validate_cons, Hnum. unfold after. by cbn [trace final value].
Qed.

(** * The prefetch pipeline *)

Lemma pipeline_app t1 t2 : pipeline (t1 ++ t2) = pipeline t1 ++ pipeline t2.
Proof. apply filter_app. Qed.

Lemma prints_no_pipeline t : Forall is_print t -> pipeline t = [].
Proof. induction 1 as [|e t He _ IH]; [done|]. by destruct e. Qed.

Lemma creation_trace_no_pipeline word deck_id cloze_model_id basic_model_id s chosen :
  pipeline (creation_trace word deck_id cloze_model_id basic_model_id s chosen) = [].
Proof.
  revert chosen. induction s as [|c s IH]; intros [|card chosen]; try done.
  simpl. apply IH.
Qed.

Lemma remove_word_no_pipeline word w :
  pipeline (trace (_remove_word_from_pending_file word w)) = [].
Proof.
  by destruct (remove_word_cases word w) as [[_ ->]|(content & _ & ->)].
Qed.

Lemma loop_no_pipeline
    unicodedata word flashcards deck_id cloze_model_id basic_model_id lines w :
  stdin w = lines ->
  pipeline (trace (selection_loop unicodedata word flashcards deck_id
                     cloze_model_id basic_model_id lines w)) = [].
Proof.
  revert w. induction lines as [|s rest IH]; intros w Hin.
  { by rewrite loop_eof. }
  rewrite <- Hin. destruct (decide (s = [])) as [->|Hne].
  - rewrite (loop_skip _ _ _ _ _ _ rest w Hin). cbn [after trace].
    rewrite pipeline_app, remove_word_no_pipeline. done.
  - destruct (loop_cases unicodedata word flashcards deck_id cloze_model_id
                basic_model_id s rest w Hin Hne)
      as [(ds & chosen & _ & _ & ->)|[(_ & c & _ & ->)|(_ & c & _ & _ & ->)]].
    + cbn [after trace].
      rewrite pipeline_app, remove_word_no_pipeline, app_nil_r.
      change (Prompt selection_prompt :: ?l) with ([Prompt selection_prompt] ++ l).
      by rewrite !pipeline_app, creation_trace_no_pipeline.
    + cbn [after trace].
      by rewrite pipeline_app, (IH (World (files w) (anki w) rest) eq_refl).
    + done.
Qed.

(** The review itself submits and retrieves nothing. *)
Lemma review_no_pipeline
    unicodedata word flashcards deck_id cloze_model_id basic_model_id w :
  pipeline (trace (_create_flashcard_interactively unicodedata word flashcards
                     deck_id cloze_model_id basic_model_id w)) = [].
Proof.
  destruct (review_run unicodedata word flashcards deck_id cloze_model_id
              basic_model_id) as (header & Hh & ->).
  cbn [after trace].
  by rewrite pipeline_app, (prints_no_pipeline _ Hh), loop_no_pipeline.
Qed.

Lemma getitem_nat {A} (l : list A) k x :
  l !! k = Some x -> getitem l (Z.of_nat k) = inr x.
Proof.
  intros Hk. unfold getitem.
  destruct (Z.of_nat k <? 0)%Z eqn:E; [apply Z.ltb_lt in E; lia|].
  by rewrite E, Nat2Z.id, Hk.
Qed.

Lemma bind_assoc {A B C} (m : M A) (f : A -> M B) (g : B -> M C) w :
  bind (bind m f) g w = bind m (fun x => bind (f x) g) w.
Proof.
  unfold bind. destruct (value (m w)) as [e|a]; cbn [value trace final]; [done|].
  destruct (value (f a (final (m w)))) as [e|b]; cbn [value trace final];
    [done|]. by rewrite app_assoc.
Qed.

(** One iteration of the loop of source lines 208-216. *)
Lemma main_loop_step
    unicodedata llm words deck_id cloze_model_id basic_model_id i r future w word :
  words !! i = Some word ->
  main_loop unicodedata llm words deck_id cloze_model_id basic_model_id
    i (S r) future w
  = match future with
    | inl e => Outcome [Result i] w (inl e)
    | inr completion =>
        after (Result i
               :: match words !! S i with
                  | Some next => [Submit (S i) next]
                  | None => []
                  end
               ++ [Review i word])
          (bind (_create_flashcard_interactively unicodedata word completion
                   deck_id cloze_model_id basic_model_id)
             (fun _ =>
                main_loop unicodedata llm words deck_id cloze_model_id
                  basic_model_id (S i) r
                  match words !! S i with
                  | Some next =>
                      _request_flashcards_from_llm llm (S i) next (files w)
                  | None => future
                  end) w)
    end.
Proof.
  intros Hword. cbn [main_loop]. unfold future_result.
  rewrite bind_assoc, bind_emit. destruct future as [e|completion]; [done|].
  rewrite bind_lift_inr. rewrite Nat.add_1_r.
  replace (Z.of_nat i + 1)%Z with (Z.of_nat (S i)) by lia.
  rewrite (getitem_nat _ _ _ Hword).
  destruct (words !! S i) as [next|] eqn:Hnext.
  - apply lookup_lt_Some in Hnext as Hlt. apply Nat.ltb_lt in Hlt. rewrite Hlt.
    rewrite (getitem_nat _ _ _ Hnext).
    rewrite (bind_after _ _ _
               (_request_flashcards_from_llm llm (S i) next (files w)))
      by (by rewrite bind_lift_inr).
    rewrite bind_lift_inr. cbn [submit trace final].
    rewrite bind_lift_inr, bind_emit, !after_after. done.
  - apply lookup_ge_None in Hnext as Hge. apply Nat.ltb_ge in Hge. rewrite Hge.
    rewrite bind_ret, bind_lift_inr, bind_emit, after_after. done.
Qed.

Lemma trace_after {A} t (o : outcome A) : trace (after t o) = t ++ trace o.
Proof. done. Qed.

Lemma value_after {A} t (o : outcome A) : value (after t o) = value o.
Proof. done. Qed.

Lemma final_after {A} t (o : outcome A) : final (after t o) = final o.
Proof. done. Qed.

Lemma pipeline_review_bind
    {B} unicodedata word completion deck_id cloze_model_id basic_model_id
    (k : unit -> M B) w :
  let review := _create_flashcard_interactively unicodedata word completion
                  deck_id cloze_model_id basic_model_id in
  (exists e, value (review w) = inl e /\
             value (bind review k w) = inl e /\
             pipeline (trace (bind review k w)) = [])
  \/ (value (review w) = inr tt /\
      value (bind review k w) = value (k tt (final (review w))) /\
      pipeline (trace (bind review k w))
      = pipeline (trace (k tt (final (review w))))).
Proof.
  intros review.
  pose proof (review_no_pipeline unicodedata word completion deck_id
                cloze_model_id basic_model_id w) as Hq. fold review in Hq.
  destruct (value (review w)) as [e|[]] eqn:Hv.
  - left. exists e. rewrite (bind_inl _ _ _ _ Hv). by cbn [value trace].
  - right. rewrite (bind_after _ _ _ _ Hv). cbn [after value trace].
    by rewrite pipeline_app, Hq.
Qed.

(** The submissions, retrievals and review starts of the loop follow the
    one-ahead schedule: always a prefix of it, and all of it when the loop
    returns. *)
Lemma main_loop_pipeline
    unicodedata llm words deck_id cloze_model_id basic_model_id r :
  forall i future w,
    (i + r = length words)%nat ->
    let o := main_loop unicodedata llm words deck_id cloze_model_id
               basic_model_id i r future w in
    pipeline (trace o) `prefix_of` schedule words i r /\
    (value o = inr tt -> pipeline (trace o) = schedule words i r).
Proof.
  induction r as [|r IH]; intros i future w Hlen o; subst o.
  { by cbn. }
  destruct (lookup_lt_is_Some_2 words i) as [word Hword]; [lia|].
  rewrite (main_loop_step _ _ _ _ _ _ _ _ _ _ _ Hword).
  cbn [schedule]. rewrite Hword.
  destruct future as [e|completion].
  { cbn [trace value]. split; [|done]. by apply prefix_cons, prefix_nil. }
  set (sub := match words !! S i with
              | Some next => [Submit (S i) next]
              | None => []
              end).
  set (future' := match words !! S i with
                  | Some next =>
                      _request_flashcards_from_llm llm (S i) next (files w)
                  | None => inr completion
                  end).
  set (head := Result i :: sub ++ [Review i word]).
  assert (pipeline head = head) as Hhead.
  { subst head sub. by destruct (words !! S i). }
  replace (Result i :: sub ++ [Review i word] ++ schedule words (S i) r)
    with (head ++ schedule words (S i) r)
    by (subst head; simpl; by rewrite <- app_assoc).
  rewrite trace_after, value_after, pipeline_app, Hhead.
  destruct (pipeline_review_bind unicodedata word completion deck_id
              cloze_model_id basic_model_id
              (fun _ => main_loop unicodedata llm words deck_id cloze_model_id
                          basic_model_id (S i) r future') w)
    as [(e & _ & Hv & Hp)|(_ & Hv & Hp)]; rewrite Hv, Hp.
  - split; [|done]. rewrite app_nil_r. by apply prefix_app_r.
  - destruct (IH (S i) future'
                (final (_create_flashcard_interactively unicodedata word
                          completion deck_id cloze_model_id basic_model_id w)))
      as [Hpre Heq]; [lia|].
    split; [by apply prefix_app|]. intros Hval. by rewrite Heq.
Qed.

(** ** The schedule *)

Lemma schedule_S words i r :
  schedule words i (S r)
  = (Result i
     :: match words !! S i with Some next => [Submit (S i) next] | None => [] end
     ++ match words !! i with Some word => [Review i word] | None => [] end)
    ++ schedule words (S i) r.
Proof. cbn [schedule]. simpl. by rewrite <- app_assoc. Qed.

Lemma stage_ok_mono words lo lo' hi hi' e :
  (lo' <= lo)%nat -> (hi <= hi')%nat ->
  stage_ok words lo hi e -> stage_ok words lo' hi' e.
Proof. destruct e; simpl; try done; lia || (intros ? ? [? ?]; split; [lia|done]). Qed.

Lemma schedule_stage words r i :
  Forall (stage_ok words i (i + r)) (schedule words i r).
Proof.
  revert i. induction r as [|r IH]; intros i; [constructor|].
  rewrite schedule_S. apply Forall_app. split.
  - constructor; [simpl; lia|]. apply Forall_app. split.
    + destruct (words !! S i) eqn:E; constructor; [|constructor].
      simpl. split; [lia|done].
    + destruct (words !! i) eqn:E; constructor; [|constructor].
      simpl. split; [lia|done].
  - eapply Forall_impl; [apply IH|]. intros e.
    apply stage_ok_mono; lia.
Qed.

Lemma schedule_NoDup words r i : NoDup (schedule words i r).
Proof.
  revert i. induction r as [|r IH]; intros i; [constructor|].
  pose proof (schedule_stage words r (S i)) as Hst.
  rewrite Forall_forall in Hst.
  cbn [schedule]. apply NoDup_cons. split.
  { intros [Hin|[Hin|Hin]%elem_of_app]%elem_of_app.
    - destruct (words !! S i); [|by apply elem_of_nil in Hin].
      by apply list_elem_of_singleton in Hin.
    - destruct (words !! i); [|by apply elem_of_nil in Hin].
      by apply list_elem_of_singleton in Hin.
    - apply Hst in Hin. simpl in Hin. lia. }
  apply NoDup_app. split; [|split].
  - destruct (words !! S i); [apply NoDup_singleton|constructor].
  - intros e He [Hin|Hin]%elem_of_app.
    + destruct (words !! S i); [|by apply elem_of_nil in He].
      apply list_elem_of_singleton in He as ->.
      destruct (words !! i); [|by apply elem_of_nil in Hin].
      by apply list_elem_of_singleton in Hin.
    + destruct (words !! S i); [|by apply elem_of_nil in He].
      apply list_elem_of_singleton in He as ->.
      apply Hst in Hin. simpl in Hin. lia.
  - apply NoDup_app. split; [|split; [|apply IH]].
    + destruct (words !! i); [apply NoDup_singleton|constructor].
    + intros e He Hin.
      destruct (words !! i); [|by apply elem_of_nil in He].
      apply list_elem_of_singleton in He as ->.
      apply Hst in Hin. simpl in Hin. lia.
Qed.

(** In the schedule, the result of word j is retrieved before word j+1 is
    submitted, and that happens before the review of word j starts. *)
Lemma schedule_order words r :
  forall i j word next,
    (i <= j < i + r)%nat -> words !! j = Some word -> words !! S j = Some next ->
    exists p1 p2 p3,
      (p1 < p2 < p3)%nat /\
      schedule words i r !! p1 = Some (Result j) /\
      schedule words i r !! p2 = Some (Submit (S j) next) /\
      schedule words i r !! p3 = Some (Review j word).
Proof.
  induction r as [|r IH]; intros i j word next Hj Hword Hnext; [lia|].
  destruct (decide (j = i)) as [->|Hne].
  - exists 0%nat, 1%nat, 2%nat. cbn [schedule]. rewrite Hword, Hnext.
    split; [lia|]. done.
  - destruct (IH (S i) j word next) as (p1 & p2 & p3 & Hlt & H1 & H2 & H3);
      [lia|done|done|].
    rewrite schedule_S.
    set (head := Result i :: _ ++ _).
    exists (length head + p1)%nat, (length head + p2)%nat, (length head + p3)%nat.
    split; [lia|].
    rewrite !lookup_app_r by lia.
    replace (length head + p1 - length head)%nat with p1 by lia.
    replace (length head + p2 - length head)%nat with p2 by lia.
    replace (length head + p3 - length head)%nat with p3 by lia.
    done.
Qed.

Lemma submitted_cons e t :
  submitted (e :: t) = ((if is_submit e then 1 else 0) + submitted t)%nat.
Proof. unfold submitted. rewrite filter_cons. by destruct e. Qed.

Lemma retrieved_cons e t :
  retrieved (e :: t) = ((if is_result e then 1 else 0) + retrieved t)%nat.
Proof. unfold retrieved. rewrite filter_cons. by destruct e. Qed.

Lemma prefix_cons_cases {A} (p : list A) x l :
  p `prefix_of` x :: l -> p = [] \/ exists p', p = x :: p' /\ p' `prefix_of` l.
Proof.
  destruct p as [|y p]; [by left|]. intros Hp. right.
  apply prefix_cons_inv_1 in Hp as Hxy. apply prefix_cons_inv_2 in Hp.
  subst. eauto.
Qed.

(** Within the schedule no request is submitted before the result of the
    previous one has been retrieved. *)
Lemma schedule_prefix_count words r :
  forall i p, p `prefix_of` schedule words i r ->
              (submitted p <= retrieved p)%nat.
Proof.
  induction r as [|r IH]; intros i p Hp.
  { apply prefix_nil_inv in Hp as ->. done. }
  cbn [schedule] in Hp.
  apply prefix_cons_cases in Hp as [->|(p1 & -> & Hp)]; [done|].
  rewrite submitted_cons, retrieved_cons. cbn [is_submit is_result].
  assert (forall q, q `prefix_of`
                      match words !! i with
                      | Some word => [Review i word]
                      | None => []
                      end ++ schedule words (S i) r ->
                    (submitted q <= retrieved q)%nat) as Hrev.
  { intros q Hq. destruct (words !! i).
    - apply prefix_cons_cases in Hq as [->|(q1 & -> & Hq)]; [done|].
      rewrite submitted_cons, retrieved_cons. cbn [is_submit is_result].
      by apply (IH (S i)).
    - by apply (IH (S i)). }
  destruct (words !! S i).
  - apply prefix_cons_cases in Hp as [->|(p2 & -> & Hp)];
      [cbn; lia|].
    rewrite submitted_cons, retrieved_cons. cbn [is_submit is_result].
    specialize (Hrev p2 Hp). lia.
  - specialize (Hrev p1 Hp). lia.
Qed.

Lemma schedule_reviews words r :
  forall i j word,
    (i <= j < i + r)%nat -> words !! j = Some word ->
    Review j word ∈ schedule words i r.
Proof.
  induction r as [|r IH]; intros i j word Hj Hword; [lia|].
  rewrite schedule_S. destruct (decide (j = i)) as [->|Hne].
  - apply elem_of_app. left. rewrite Hword. right.
    apply elem_of_app. right. by left.
  - apply elem_of_app. right. apply IH; [lia|done].
Qed.

Lemma process_pending_words_run
    unicodedata llm words deck_id cloze_model_id basic_model_id w :
  process_pending_words unicodedata llm words deck_id cloze_model_id
    basic_model_id w
  = match words with
    | [] => Outcome [] w (inl IndexError)
    | first :: _ =>
        after [Submit 0 first]
          (main_loop unicodedata llm words deck_id cloze_model_id
             basic_model_id 0 (length words)
             (_request_flashcards_from_llm llm 0 first (files w)) w)
    end.
Proof.
  unfold process_pending_words. destruct words as [|first rest]; [done|].
  change (getitem (first :: rest) 0) with (inr first : exn + str).
  rewrite bind_lift_inr.
  rewrite (bind_after _ _ _
             (_request_flashcards_from_llm llm 0 first (files w))) by done.
  done.
Qed.

(** C1. In every run of the block that walks the pending list, whether it
    ends normally or by an exception: each submission, retrieval and
    review start happens at most once; a request is only ever submitted
    for a word of the list; when the review of word i starts and there is
    a word i+1, the result of word i was retrieved before the request for
    word i+1 was submitted, and that request was submitted before the
    review; at every moment at most one submitted request has not been
    retrieved; and a run that returns has reviewed every word. *)
Theorem prefetch_pipeline_order
    unicodedata llm words deck_id cloze_model_id basic_model_id w :
  let o := process_pending_words unicodedata llm words deck_id cloze_model_id
             basic_model_id w in
  let t := pipeline (trace o) in
  NoDup t /\
  (forall j word, Submit j word ∈ t ->
                  (j < length words)%nat /\ words !! j = Some word) /\
  (forall i word,
      Review i word ∈ t -> (S i < length words)%nat ->
      exists p1 p2 p3 next,
        (p1 < p2 < p3)%nat /\
        t !! p1 = Some (Result i) /\
        t !! p2 = Some (Submit (S i) next) /\
        t !! p3 = Some (Review i word)) /\
  (forall p, p `prefix_of` t -> (submitted p <= retrieved p + 1)%nat) /\
  (value o = inr tt ->
   forall i word, words !! i = Some word -> Review i word ∈ t).
Proof.
  intros o t. subst o t. rewrite process_pending_words_run.
  destruct words as [|first rest] eqn:Hwords.
  { cbn. split; [constructor|]. split; [by intros ? ? ?%elem_of_nil|].
    split; [by intros ? ? ?%elem_of_nil|]. split; [|done].
    intros p ->%prefix_nil_inv. cbn. lia. }
  rewrite <- Hwords. assert (words !! 0%nat = Some first) as Hfirst by by subst.
  clear Hwords rest.
  destruct (main_loop_pipeline unicodedata llm words deck_id cloze_model_id
              basic_model_id (length words) 0
              (_request_flashcards_from_llm llm 0 first (files w)) w eq_refl)
    as [Hpre Hfull].
  rewrite trace_after, value_after, pipeline_app.
  change (pipeline [Submit 0 first]) with [Submit 0 first].
  set (q := pipeline (trace (main_loop unicodedata llm words deck_id
                               cloze_model_id basic_model_id 0 (length words)
                               (_request_flashcards_from_llm llm 0 first
                                  (files w)) w))) in *.
  cbn [app].
  pose proof (schedule_stage words (length words) 0) as Hst.
  rewrite Forall_forall in Hst.
  pose proof (schedule_NoDup words (length words) 0) as Hnd.
  assert (forall e, e ∈ q -> e ∈ schedule words 0 (length words)) as Hsub.
  { intros e He. destruct Hpre as [k ->]. apply elem_of_app. by left. }
  split; [|split; [|split; [|split]]].
  - apply NoDup_cons. split.
    + intros Hin%Hsub%Hst. simpl in Hin. lia.
    + destruct Hpre as [k Hk]. rewrite Hk in Hnd.
      by apply NoDup_app in Hnd as [? _].
  - intros j word [[= -> ->]|Hin%Hsub%Hst]%elem_of_cons.
    + split; [by apply lookup_lt_Some in Hfirst|done].
    + destruct Hin as [_ Hw]. split; [by apply lookup_lt_Some in Hw|done].
  - intros i word [[=]|Hin]%elem_of_cons Hnext.
    pose proof (Hst _ (Hsub _ Hin)) as [Hi Hword].
    destruct (lookup_lt_is_Some_2 words (S i) Hnext) as [next Hn].
    destruct (schedule_order words (length words) 0 i word next)
      as (p1 & p2 & p3 & Hlt & H1 & H2 & H3); [lia|done|done|].
    apply list_elem_of_lookup in Hin as [k Hk].
    pose proof (prefix_lookup_Some _ _ _ _ Hk Hpre) as Hk'.
    assert (k = p3) as -> by (by eapply NoDup_lookup).
    apply lookup_lt_Some in Hk as Hlen.
    destruct Hpre as [rest Hrest].
    rewrite Hrest in H1, H2. rewrite lookup_app_l in H1, H2 by lia.
    exists (S p1), (S p2), (S p3), next. split; [lia|]. done.
  - intros p Hp. apply prefix_cons_cases in Hp as [->|(p' & -> & Hp)]; [cbn; lia|].
    rewrite submitted_cons, retrieved_cons. cbn [is_submit is_result].
    assert (submitted p' <= retrieved p')%nat; [|lia].
    apply (schedule_prefix_count words (length words) 0).
    by etransitivity.
  - intros Hval i word Hword. right. rewrite (Hfull Hval).
    apply schedule_reviews; [|done]. apply lookup_lt_Some in Hword. lia.
Qed.

Lemma prefetch_pipeline_order_witness :
  let words := [py "a"; py "b"; py "c"] in
  let w := World {[ _CLOZE_PROMPT_PATH := py "{{WORD}}" ]}
             (MkCollection ∅ ∅ []) [[]; []; []] in
  let o := process_pending_words (fun _ => NotDigit)
             (fun _ _ => inr [Flashcard (py "x") (py "y")]) words 1 2 3 w in
  exists p1 p2 p3 next,
    (p1 < p2 < p3)%nat /\
    pipeline (trace o) !! p1 = Some (Result 0) /\
    pipeline (trace o) !! p2 = Some (Submit 1 next) /\
    pipeline (trace o) !! p3 = Some (Review 0 (py "a")).
Proof.
  intros words w o.
  apply (proj1 (proj2 (proj2
           (prefetch_pipeline_order (fun _ => NotDigit)
              (fun _ _ => inr [Flashcard (py "x") (py "y")]) words 1 2 3 w)))).
  - apply list_elem_of_lookup. exists 3%nat. vm_compute. reflexivity.
  - simpl. lia.
Defined.

Lemma bind_pure {A B} (m : M A) (k : A -> M B) w a :
  m w = Outcome [] w (inr a) -> bind m k w = k a w.
Proof.
  intros Hm. rewrite (bind_after _ _ _ a) by (by rewrite Hm).
  rewrite Hm. apply after_nil.
Qed.

Lemma require_id_ok ids name msg id w :
  ids !! name = Some id -> id <> 0%Z ->
  require_id ids name msg w = Outcome [] w (inr id).
Proof.
  intros Hid Hnz. unfold require_id. rewrite Hid.
  by apply Z.eqb_neq in Hnz as ->.
Qed.

Lemma no_new_words rng : _get_new_words_from_multiline_string rng _NEW_WORDS = [].
Proof. by vm_compute. Qed.

(** With a configured collection, an existing pending file and no new
    words, [main_with] loads the pending words and walks them: the
    no-words guard cannot fire, as the loaded list is never empty. *)
Lemma main_with_run unicodedata rng llm new_words w deck_id cloze_id basic_id content :
  decks (anki w) !! _DECK_NAME = Some deck_id -> deck_id <> 0%Z ->
  models (anki w) !! _CLOZE_MODEL_NAME = Some cloze_id -> cloze_id <> 0%Z ->
  models (anki w) !! _BASIC_MODEL_NAME = Some basic_id -> basic_id <> 0%Z ->
  files w !! _WORDS_PENDING_PATH = Some content ->
  _get_new_words_from_multiline_string rng new_words = [] ->
  main_with unicodedata rng llm new_words w
  = after [Print (py "Loaded Anki collection. Deck ID: " ++ str_of_Z deck_id
                  ++ py ", Basic Model ID: " ++ str_of_Z basic_id
                  ++ py ", Cloze Model ID: " ++ str_of_Z cloze_id);
           ReadFile _WORDS_PENDING_PATH]
      (process_pending_words unicodedata llm
         (split_on LF (universal_newlines content)) deck_id cloze_id basic_id w).
Proof.
  intros Hd Hdz Hc Hcz Hb Hbz Hf Hnew. unfold main_with.
  rewrite (bind_pure _ _ _ (anki w)) by done.
  rewrite (bind_pure _ _ _ deck_id) by (by apply require_id_ok).
  rewrite (bind_pure _ _ _ cloze_id) by (by apply require_id_ok).
  rewrite (bind_pure _ _ _ basic_id) by (by apply require_id_ok).
  rewrite bind_print, Hnew.
  rewrite (bind_after _ _ _ (split_on LF (universal_newlines content)))
    by (by rewrite (load_pending_run _ _ Hf)).
  rewrite (load_pending_run _ _ Hf). cbn [trace final].
  rewrite bind_ret, after_after.
  pose proof (split_on_nonempty LF (universal_newlines content)) as Hne.
  unfold process_pending_words.
  by destruct (split_on LF (universal_newlines content)).
Qed.

Lemma schedule_submits words r :
  forall i j word,
    (i < j < i + r)%nat -> words !! j = Some word ->
    Submit j word ∈ schedule words i r.
Proof.
  induction r as [|r IH]; intros i j word Hj Hword; [lia|].
  rewrite schedule_S. destruct (decide (j = S i)) as [->|Hne].
  - apply elem_of_app. left. rewrite Hword. right.
    apply elem_of_app. left. by left.
  - apply elem_of_app. right. apply IH; [lia|done].
Qed.

Lemma elem_of_pipeline e t : e ∈ pipeline t -> e ∈ t.
Proof. by intros [_ ?]%list_elem_of_filter. Qed.

(** A run of the block that returns has submitted a request for every
    word of the list and reviewed every word. *)
Lemma process_pending_words_complete
    unicodedata llm words deck_id cloze_model_id basic_model_id w i word :
  let o := process_pending_words unicodedata llm words deck_id cloze_model_id
             basic_model_id w in
  value o = inr tt -> words !! i = Some word ->
  Submit i word ∈ trace o /\ Review i word ∈ trace o.
Proof.
  intros o Hval Hword. subst o.
  rewrite process_pending_words_run in Hval |- *.
  destruct words as [|first rest] eqn:Hwords; [done|]. rewrite <- Hwords in *.
  rewrite value_after in Hval. rewrite trace_after.
  destruct (main_loop_pipeline unicodedata llm words deck_id cloze_model_id
              basic_model_id (length words) 0
              (_request_flashcards_from_llm llm 0 first (files w)) w eq_refl)
    as [_ Hfull].
  apply lookup_lt_Some in Hword as Hlt. split.
  - destruct i as [|i].
    { rewrite Hwords in Hword. injection Hword as ->. by left. }
    right. apply elem_of_pipeline. rewrite (Hfull Hval).
    apply schedule_submits; [lia|done].
  - right. apply elem_of_pipeline. rewrite (Hfull Hval).
    apply schedule_reviews; [lia|done].
Qed.

(** C10. Loading the pending words returns the text of the file split at
    every line feed, never an empty list: an empty file gives one empty
    word and a file that ends with a line feed gives a last empty word.
    So with a configured collection [_main] always walks the list: for
    the empty file it submits a request for the empty word and, when the
    request succeeds, reviews it; and every run that returns has
    submitted and reviewed every entry, blank ones included. *)
Theorem blank_entries_are_pending_words
    unicodedata rng llm w deck_id cloze_id basic_id content :
  files w !! _WORDS_PENDING_PATH = Some content ->
  let words := split_on LF (universal_newlines content) in
  _load_pending_words_from_file w
  = Outcome [ReadFile _WORDS_PENDING_PATH] w (inr words) /\
  words <> [] /\
  (content = [] -> words = [[]]) /\
  (forall body, content = body ++ [LF] -> last words = Some []) /\
  (decks (anki w) !! _DECK_NAME = Some deck_id -> deck_id <> 0%Z ->
   models (anki w) !! _CLOZE_MODEL_NAME = Some cloze_id -> cloze_id <> 0%Z ->
   models (anki w) !! _BASIC_MODEL_NAME = Some basic_id -> basic_id <> 0%Z ->
   let o := _main unicodedata rng llm w in
   (exists startup,
       Forall is_print startup /\
       o = after (startup ++ [ReadFile _WORDS_PENDING_PATH])
             (process_pending_words unicodedata llm words deck_id cloze_id
                basic_id w)) /\
   (content = [] ->
    Submit 0 [] ∈ trace o /\
    forall completion,
      _request_flashcards_from_llm llm 0 [] (files w) = inr completion ->
      Review 0 [] ∈ trace o) /\
   (value o = inr tt ->
    forall i word, words !! i = Some word ->
                   Submit i word ∈ trace o /\ Review i word ∈ trace o)).
Proof.
  intros Hf words. subst words. split; [by apply load_pending_run|].
  split; [apply split_on_nonempty|]. split; [by intros ->|]. split.
  { intros body ->. destruct (universal_newlines_snoc_LF body) as [u ->].
    rewrite split_on_snoc_sep. apply last_snoc. }
  intros Hd Hdz Hc Hcz Hb Hbz o. subst o. unfold _main.
  rewrite (main_with_run unicodedata rng llm _NEW_WORDS w deck_id cloze_id
             basic_id content) by (done || apply no_new_words).
  split; [|split].
  - eexists [_]. split; [|done]. by repeat constructor.
  - intros ->. rewrite trace_after, process_pending_words_run.
    cbn [universal_newlines split_on]. rewrite trace_after.
    rewrite (main_loop_step unicodedata llm [[]] deck_id cloze_id basic_id
               0 0 _ w [] eq_refl).
    split.
    + apply elem_of_app. right. by left.
    + intros completion ->. apply elem_of_app. right. right.
      rewrite trace_after. apply elem_of_app. left. right. by left.
  - intros Hval i word Hword. rewrite value_after in Hval.
    destruct (process_pending_words_complete unicodedata llm
                (split_on LF (universal_newlines content)) deck_id cloze_id
                basic_id w i word Hval Hword) as [Hs Hr].
    rewrite trace_after. split; apply elem_of_app; by right.
Qed.

Lemma blank_entries_are_pending_words_witness :
  let w := World {[ _WORDS_PENDING_PATH := []; _BASIC_PROMPT_PATH := py "{{WORD}}" ]}
             (MkCollection {[ _DECK_NAME := 5%Z ]}
                {[ _CLOZE_MODEL_NAME := 7%Z; _BASIC_MODEL_NAME := 8%Z ]} [])
             [[]] in
  let llm := fun (_ : nat) (_ : str) =>
               inr [Flashcard (py "x") (py "y")] : exn + list flashcard in
  value (_load_pending_words_from_file w) = inr [[]] /\
  Submit 0 [] ∈ trace (_main (fun _ => NotDigit) (fun _ => O) llm w) /\
  Review 0 [] ∈ trace (_main (fun _ => NotDigit) (fun _ => O) llm w).
Proof.
  intros w llm.
  destruct (blank_entries_are_pending_words (fun _ => NotDigit) (fun _ => O)
              llm w 5 7 8 [] eq_refl) as (Hload & _ & _ & _ & Hmain).
  split; [by rewrite Hload|].
  destruct Hmain as (_ & Hempty & _); try reflexivity; try lia.
  destruct (Hempty eq_refl) as [Hs Hr]. split; [exact Hs|].
  apply (Hr [Flashcard (py "x") (py "y")]). reflexivity.
Defined.

(** C9. A run over one pending word with a trailing space, "inu ", in
    which the user skips the word: the run returns, the skipped file gets
    the word's line and the done file is not touched, but the pending file
    is not empty: the word is still there, since the removal compares the
    trimmed line with the untrimmed word. *)
Theorem skipped_word_with_trailing_space_stays_pending unicodedata rng :
  let w := World {[ _WORDS_PENDING_PATH := py "inu ";
                    _CLOZE_PROMPT_PATH := py "{{WORD}}" ]}
             (MkCollection {[ _DECK_NAME := 5%Z ]}
                {[ _CLOZE_MODEL_NAME := 7%Z; _BASIC_MODEL_NAME := 8%Z ]} [])
             [[]] in
  let llm := fun (_ : nat) (_ : str) =>
               inr [Flashcard (py "x") (py "y")] : exn + list flashcard in
  let o := _main unicodedata rng llm w in
  value o = inr tt /\
  stdin (final o) = [] /\
  files (final o) !! _WORDS_PENDING_PATH = Some (py "inu ") /\
  files (final o) !! _WORDS_SKIPPED_PATH = Some (py "inu \n") /\
  files (final o) !! _WORDS_DONE_PATH = None.
Proof. intros w llm o. by vm_compute. Qed.

(** * Further properties of the word list store *)

Lemma remove_word_files word w content :
  files w !! _WORDS_PENDING_PATH = Some content ->
  files (final (_remove_word_from_pending_file word w))
  = <[_WORDS_PENDING_PATH :=
        concat (filter (fun line => strip line <> word) (file_lines content))]>
      (files w).
Proof. intros Hf. by rewrite (remove_word_run _ _ _ Hf). Qed.

(** X1. Removing is idempotent and removals commute: removing [a] and then
    [b] leaves the pending file with exactly the lines whose trimmed
    content is neither, whichever comes first; removing [a] twice is the
    same as removing it once. *)
Theorem remove_pending_composes a b w content :
  files w !! _WORDS_PENDING_PATH = Some content ->
  let remove := _remove_word_from_pending_file in
  let both := filter (fun line => strip line <> b /\ strip line <> a)
                (file_lines content) in
  files (final (remove b (final (remove a w))))
  = <[_WORDS_PENDING_PATH := concat both]> (files w) /\
  files (final (remove b (final (remove a w))))
  = files (final (remove a (final (remove b w)))) /\
  files (final (remove a (final (remove a w)))) = files (final (remove a w)).
Proof.
  intros Hf remove both. subst remove both.
  assert (forall x y,
             files (final (_remove_word_from_pending_file y
                             (final (_remove_word_from_pending_file x w))))
             = <[_WORDS_PENDING_PATH :=
                   concat (filter (fun line => strip line <> y /\ strip line <> x)
                             (file_lines content))]> (files w)) as Hxy.
  { intros x y.
    rewrite (remove_word_files y _
               (concat (filter (fun line => strip line <> x) (file_lines content)))).
    - rewrite (remove_word_files x w content Hf), insert_insert_eq.
      by rewrite file_lines_rewrite, list_filter_filter.
    - rewrite (remove_word_files x w content Hf). apply lookup_insert_eq. }
  split; [apply Hxy|]. split.
  - rewrite !Hxy. f_equal. f_equal. apply list_filter_iff. tauto.
  - rewrite Hxy, (remove_word_files a w content Hf). f_equal. f_equal.
    apply list_filter_iff. tauto.
Qed.

Lemma remove_pending_composes_witness :
  let w := World {[ _WORDS_PENDING_PATH := py "neko\ninu\ntori\n" ]}
             (MkCollection ∅ ∅ []) [] in
  files (final (_remove_word_from_pending_file (py "tori")
                  (final (_remove_word_from_pending_file (py "neko") w))))
  = {[ _WORDS_PENDING_PATH := py "inu\n" ]}.
Proof.
  intros w.
  destruct (remove_pending_composes (py "neko") (py "tori") w
              (py "neko\ninu\ntori\n") eq_refl) as [-> _].
  vm_compute. reflexivity.
Defined.

Lemma filter_Forall_id {A} (P : A -> Prop) `{!forall x, Decision (P x)} l :
  Forall P l -> filter P l = l.
Proof.
  induction 1 as [|x l Hx _ IH]; [done|]. by rewrite filter_cons_True, IH.
Qed.

(** X2. Removing a word that no line of the pending file has as trimmed
    content rewrites the file with the text as read; a file without
    carriage returns is left exactly as it was. *)
Theorem remove_absent_word_keeps_file word w content :
  files w !! _WORDS_PENDING_PATH = Some content ->
  Forall (fun line => strip line <> word) (file_lines content) ->
  files (final (_remove_word_from_pending_file word w))
  = <[_WORDS_PENDING_PATH := universal_newlines content]> (files w) /\
  (CR ∉ content -> final (_remove_word_from_pending_file word w) = w).
Proof.
  intros Hf Hall.
  assert (concat (filter (fun line => strip line <> word) (file_lines content))
          = universal_newlines content) as Hsame.
  { rewrite filter_Forall_id by done. apply readlines_concat. }
  split.
  - by rewrite (remove_word_files _ _ _ Hf), Hsame.
  - intros Hcr. rewrite (remove_word_run _ _ _ Hf). cbn [final].
    rewrite Hsame, universal_newlines_id, insert_id by done. apply world_eta.
Qed.

Lemma remove_absent_word_keeps_file_witness :
  let w := World {[ _WORDS_PENDING_PATH := py "neko\ninu \n" ]}
             (MkCollection ∅ ∅ []) [] in
  final (_remove_word_from_pending_file (py "inu ") w) = w.
Proof.
  intros w.
  apply (remove_absent_word_keeps_file (py "inu ") w (py "neko\ninu \n") eq_refl).
  - repeat constructor; by vm_compute.
  - vm_compute. intros H. repeat (apply elem_of_cons in H as [H|H]; [discriminate|]).
    by apply elem_of_nil in H.
Defined.

(** * Further properties of loading and of the start of [_main] *)

Lemma split_on_no_sep sep s : Forall (fun word => sep ∉ word) (split_on sep s).
Proof.
  induction s as [|c s IH]; simpl.
  - constructor; [apply not_elem_of_nil|constructor].
  - destruct (c =? sep) eqn:E.
    + constructor; [apply not_elem_of_nil|done].
    + pose proof (split_on_nonempty sep s).
      destruct (split_on sep s) as [|h t]; [done|]. simpl.
      inversion IH; subst. constructor; [|done].
      apply not_elem_of_cons. split; [|done].
      intros ->. by rewrite N.eqb_refl in E.
Qed.

Lemma split_on_length sep s :
  length (split_on sep s) = S (length (filter (fun c => c = sep) s)).
Proof.
  induction s as [|c s IH]; [done|]. simpl. rewrite filter_cons.
  destruct (c =? sep) eqn:E.
  - apply N.eqb_eq in E as ->. rewrite decide_True by done. simpl. by rewrite IH.
  - apply N.eqb_neq in E. rewrite decide_False by done.
    pose proof (split_on_nonempty sep s).
    destruct (split_on sep s) as [|h t]; [done|]. simpl in *. done.
Qed.

Lemma split_on_join sep s :
  foldr (fun word acc => word ++ sep :: acc) [] (split_on sep s) = s ++ [sep].
Proof.
  induction s as [|c s IH]; [done|]. simpl.
  destruct (c =? sep) eqn:E.
  - apply N.eqb_eq in E as ->. simpl. by rewrite IH.
  - pose proof (split_on_nonempty sep s).
    destruct (split_on sep s) as [|h t]; [done|]. simpl in *. by rewrite IH.
Qed.

(** X3. The loaded pending words lose nothing of the file: no word
    contains a line feed, there is one word more than there are line
    feeds in the text read, and writing every word followed by a line feed
    gives the text back with one more line feed.  When the file is missing
    the load raises FileNotFoundError and changes nothing. *)
Theorem load_pending_faithful w :
  (forall content,
      files w !! _WORDS_PENDING_PATH = Some content ->
      let text := universal_newlines content in
      exists words,
        _load_pending_words_from_file w
        = Outcome [ReadFile _WORDS_PENDING_PATH] w (inr words) /\
        Forall (fun word => LF ∉ word) words /\
        length words = S (length (filter (fun c => c = LF) text)) /\
        foldr (fun word acc => word ++ LF :: acc) [] words = text ++ [LF]) /\
  (files w !! _WORDS_PENDING_PATH = None ->
   _load_pending_words_from_file w
   = Outcome [] w (inl (FileNotFoundError _WORDS_PENDING_PATH))).
Proof.
  split.
  - intros content Hf text. exists (split_on LF text). subst text.
    split; [by apply load_pending_run|].
    split; [apply split_on_no_sep|].
    split; [apply split_on_length|apply split_on_join].
  - intros Hf. unfold _load_pending_words_from_file, bind, read_file.
    by rewrite Hf.
Qed.

Lemma load_pending_faithful_witness :
  let w := World {[ _WORDS_PENDING_PATH := py "neko\ninu\n" ]}
             (MkCollection ∅ ∅ []) [] in
  exists words,
    value (_load_pending_words_from_file w) = inr words /\ length words = 3%nat.
Proof.
  intros w.
  destruct (proj1 (load_pending_faithful w) (py "neko\ninu\n") eq_refl)
    as (words & Hrun & _ & Hlen & _).
  exists words. split; [by rewrite Hrun|]. rewrite Hlen. reflexivity.
Defined.

Lemma require_id_missing ids name msg w :
  ids !! name = None \/ ids !! name = Some 0%Z ->
  require_id ids name msg w = Outcome [] w (inl (ValueError msg)).
Proof. unfold require_id. by intros [->| ->]. Qed.

(** X4. Configuration errors stop [main_with] at once: when the deck, the
    cloze note type or the basic note type is not found, or its id is 0,
    the run raises ValueError naming it, having printed nothing, read no
    file, submitted no request and changed nothing. *)
Theorem main_fails_fast_on_configuration unicodedata rng llm new_words w :
  let absent (ids : gmap string Z) name :=
    ids !! name = None \/ ids !! name = Some 0%Z in
  let present (ids : gmap string Z) name :=
    exists id, ids !! name = Some id /\ id <> 0%Z in
  let o := main_with unicodedata rng llm new_words w in
  (absent (decks (anki w)) _DECK_NAME ->
   o = Outcome [] w (inl (ValueError (py "Deck name Japanese not found.")))) /\
  (present (decks (anki w)) _DECK_NAME ->
   absent (models (anki w)) _CLOZE_MODEL_NAME ->
   o = Outcome [] w
         (inl (ValueError
                 (py "Cloze model name (note type) Japanese Cloze not found.")))) /\
  (present (decks (anki w)) _DECK_NAME ->
   present (models (anki w)) _CLOZE_MODEL_NAME ->
   absent (models (anki w)) _BASIC_MODEL_NAME ->
   o = Outcome [] w
         (inl (ValueError
                 (py "Basic model name (note type) Japanese Reading not found.")))).
Proof.
  intros absent present o. subst absent present o. unfold main_with.
  rewrite (bind_pure _ _ _ (anki w)) by done.
  split; [|split].
  - intros Hd. erewrite bind_inl by (by rewrite require_id_missing).
    by rewrite require_id_missing.
  - intros (d & Hd & Hdz) Hc.
    rewrite (bind_pure _ _ _ d) by (by apply require_id_ok).
    erewrite bind_inl by (by rewrite require_id_missing).
    by rewrite require_id_missing.
  - intros (d & Hd & Hdz) (c & Hc & Hcz) Hb.
    rewrite (bind_pure _ _ _ d) by (by apply require_id_ok).
    rewrite (bind_pure _ _ _ c) by (by apply require_id_ok).
    erewrite bind_inl by (by rewrite require_id_missing).
    by rewrite require_id_missing.
Qed.

Lemma main_fails_fast_on_configuration_witness :
  let w := World {[ _WORDS_PENDING_PATH := py "neko" ]}
             (MkCollection {[ _DECK_NAME := 0%Z ]} ∅ []) [[]] in
  main_with (fun _ => NotDigit) (fun _ => O) (fun _ _ => inl APIError) [] w
  = Outcome [] w (inl (ValueError (py "Deck name Japanese not found."))).
Proof.
  intros w.
  apply (proj1 (main_fails_fast_on_configuration (fun _ => NotDigit)
                  (fun _ => O) (fun _ _ => inl APIError) [] w)).
  right. reflexivity.
Defined.

(** X5. With a configured collection but no pending file, [main_with]
    prints the banner and raises FileNotFoundError on the first load: no
    request is submitted, no file is created (not even for new words,
    which are appended only after that load) and nothing changes. *)
Theorem main_needs_pending_file
    unicodedata rng llm new_words w deck_id cloze_id basic_id :
  decks (anki w) !! _DECK_NAME = Some deck_id -> deck_id <> 0%Z ->
  models (anki w) !! _CLOZE_MODEL_NAME = Some cloze_id -> cloze_id <> 0%Z ->
  models (anki w) !! _BASIC_MODEL_NAME = Some basic_id -> basic_id <> 0%Z ->
  files w !! _WORDS_PENDING_PATH = None ->
  exists banner,
    main_with unicodedata rng llm new_words w
    = Outcome [Print banner] w (inl (FileNotFoundError _WORDS_PENDING_PATH)).
Proof.
  intros Hd Hdz Hc Hcz Hb Hbz Hf. eexists. unfold main_with.
  rewrite (bind_pure _ _ _ (anki w)) by done.
  rewrite (bind_pure _ _ _ deck_id) by (by apply require_id_ok).
  rewrite (bind_pure _ _ _ cloze_id) by (by apply require_id_ok).
  rewrite (bind_pure _ _ _ basic_id) by (by apply require_id_ok).
  rewrite bind_print.
  assert (_load_pending_words_from_file w
          = Outcome [] w (inl (FileNotFoundError _WORDS_PENDING_PATH))) as Hload.
  { unfold _load_pending_words_from_file, bind, read_file. by rewrite Hf. }
  rewrite (bind_inl _ _ _ (FileNotFoundError _WORDS_PENDING_PATH))
    by (by rewrite Hload).
  rewrite Hload. reflexivity.
Qed.

Lemma main_needs_pending_file_witness :
  let w := World ∅
             (MkCollection {[ _DECK_NAME := 5%Z ]}
                {[ _CLOZE_MODEL_NAME := 7%Z; _BASIC_MODEL_NAME := 8%Z ]} [])
             [[]] in
  exists banner,
    main_with (fun _ => NotDigit) (fun _ => O) (fun _ _ => inl APIError)
      (py "neko\n") w
    = Outcome [Print banner] w (inl (FileNotFoundError _WORDS_PENDING_PATH)).
Proof.
  intros w.
  apply (main_needs_pending_file (fun _ => NotDigit) (fun _ => O)
           (fun _ _ => inl APIError) (py "neko\n") w 5 7 8);
    reflexivity || lia.
Defined.

(** X6. A request that fails shows only when its result is retrieved: if
    the request for word i+1 raises, word i is still reviewed in full,
    and the run then ends with that exception at the retrieval for word
    i+1, before any review of it.  When the first request fails, nothing
    is reviewed and nothing changes. *)
Theorem failed_request_surfaces_at_retrieval
    unicodedata llm words deck_id cloze_model_id basic_model_id :
  (forall first rest w e,
      words = first :: rest ->
      _request_flashcards_from_llm llm 0 first (files w) = inl e ->
      process_pending_words unicodedata llm words deck_id cloze_model_id
        basic_model_id w
      = Outcome [Submit 0 first; Result 0] w (inl e)) /\
  (forall i r word next completion w e,
      words !! i = Some word -> words !! S i = Some next ->
      _request_flashcards_from_llm llm (S i) next (files w) = inl e ->
      let review := _create_flashcard_interactively unicodedata word completion
                      deck_id cloze_model_id basic_model_id w in
      value review = inr tt ->
      main_loop unicodedata llm words deck_id cloze_model_id basic_model_id
        i (S (S r)) (inr completion) w
      = Outcome ([Result i; Submit (S i) next; Review i word]
                 ++ trace review ++ [Result (S i)])
          (final review) (inl e)).
Proof.
  split.
  - intros first rest w e -> He. rewrite process_pending_words_run.
    cbn [length].
    rewrite (main_loop_step unicodedata llm (first :: rest) deck_id
               cloze_model_id basic_model_id 0 (length rest) _ w first eq_refl).
    by rewrite He.
  - intros i r word next completion w e Hword Hnext He review Hval.
    subst review.
    rewrite (main_loop_step _ _ _ _ _ _ _ _ _ _ _ Hword), Hnext, He.
    rewrite (bind_after _ _ _ tt) by done.
    rewrite (main_loop_step _ _ _ _ _ _ _ _ _ _ _ Hnext).
    unfold after. by cbn [trace final value].
Qed.

Lemma failed_request_surfaces_at_retrieval_witness :
  let w := World {[ _WORDS_PENDING_PATH := py "neko" ]}
             (MkCollection ∅ ∅ []) [[]] in
  process_pending_words (fun _ => NotDigit) (fun _ _ => inl APIError)
    [py "neko"] 1 2 3 w
  = Outcome [Submit 0 (py "neko"); Result 0] w
      (inl (FileNotFoundError _CLOZE_PROMPT_PATH)).
Proof.
  intros w.
  apply (proj1 (failed_request_surfaces_at_retrieval (fun _ => NotDigit)
                  (fun _ _ => inl APIError) [py "neko"] 1 2 3)
           (py "neko") [] w); reflexivity.
Defined.

(** * Further properties of appending and of ingestion *)

Lemma append_new_words_trace new_words existing_words w :
  trace (append_new_words new_words existing_words w)
  = concat ((fun word =>
               [Print (py "Adding to pending words file: " ++ word);
                AppendFile _WORDS_PENDING_PATH (word ++ [LF])])
              <$> filter (fun word => word ∉ existing_words) new_words).
Proof.
  revert w. induction new_words as [|word rest IH]; intros w; [done|].
  cbn [append_new_words]. rewrite filter_cons.
  destruct (decide (word ∉ existing_words)) as [Hn|Hin].
  - rewrite bool_decide_eq_false_2 by done.
    rewrite bind_assoc, bind_print.
    rewrite (bind_after _ _ _ tt) by done.
    cbn [after trace write_append final]. by rewrite IH.
  - rewrite bool_decide_eq_true_2 by (by apply dec_stable).
    by rewrite bind_ret, IH.
Qed.

(** X7. [_append_new_pending_words_to_file] opens the pending file once,
    creating it when it is missing, and then for each new word that is
    not in [existing_words], in order, announces the word and writes its
    line; a word already listed causes no output at all.  It never
    raises. *)
Theorem append_pending_announces_each_new_word new_words existing_words w :
  let o := _append_new_pending_words_to_file new_words existing_words w in
  value o = inr tt /\
  trace o
  = OpenAppend _WORDS_PENDING_PATH
    :: concat ((fun word =>
                  [Print (py "Adding to pending words file: " ++ word);
                   AppendFile _WORDS_PENDING_PATH (word ++ [LF])])
                 <$> filter (fun word => word ∉ existing_words) new_words) /\
  (files w !! _WORDS_PENDING_PATH = None ->
   files (final o)
   = <[_WORDS_PENDING_PATH := appended_text new_words existing_words]> (files w)).
Proof.
  intros o. subst o.
  destruct (append_pending_run new_words existing_words w) as [Hv Hfin].
  split; [done|]. split.
  - unfold _append_new_pending_words_to_file.
    rewrite (bind_after _ _ _ tt) by done.
    cbn [after trace open_append final]. by rewrite append_new_words_trace.
  - intros Hf. rewrite Hfin. cbn [files]. by rewrite Hf.
Qed.

Lemma append_pending_announces_each_new_word_witness :
  files (final (_append_new_pending_words_to_file [py "neko"] []
                  (World ∅ (MkCollection ∅ ∅ []) [])))
  = {[ _WORDS_PENDING_PATH := py "neko\n" ]}.
Proof.
  rewrite (proj2 (proj2 (append_pending_announces_each_new_word [py "neko"] []
                           (World ∅ (MkCollection ∅ ∅ []) []))))
    by (vm_compute; reflexivity).
  vm_compute. reflexivity.
Defined.

Lemma split_on_absent sep s : sep ∉ s -> split_on sep s = [s].
Proof.
  induction s as [|c s IH]; [done|]. intros [Hc Hs]%not_elem_of_cons. simpl.
  destruct (c =? sep) eqn:E; [apply N.eqb_eq in E; congruence|].
  by rewrite IH.
Qed.

(** X8. Appending does not separate: when the pending file is one line
    without a final line feed, a new word is written right after it, and
    the next load returns the old line and the new word glued into one
    word, followed by an empty word. *)
Theorem append_glues_onto_unterminated_line w content word :
  files w !! _WORDS_PENDING_PATH = Some content ->
  LF ∉ content -> CR ∉ content -> LF ∉ word -> CR ∉ word -> word <> content ->
  let existing := split_on LF (universal_newlines content) in
  let w' := final (_append_new_pending_words_to_file [word] existing w) in
  files w' !! _WORDS_PENDING_PATH = Some (content ++ word ++ [LF]) /\
  value (_load_pending_words_from_file w') = inr [content ++ word; []].
Proof.
  intros Hf Hlf Hcr Hwlf Hwcr Hne existing w'. subst existing w'.
  destruct (append_pending_run [word]
              (split_on LF (universal_newlines content)) w) as [_ ->].
  rewrite Hf. cbn [default].
  rewrite universal_newlines_id, split_on_absent by done.
  unfold appended_text. rewrite filter_cons_True, filter_nil
    by (by intros ?%list_elem_of_singleton).
  cbn [fmap list_fmap concat]. rewrite app_nil_r.
  split; [apply lookup_insert_eq|].
  erewrite load_pending_run by apply lookup_insert_eq. cbn [value].
  rewrite universal_newlines_id.
  - rewrite app_assoc, split_on_snoc_sep, split_on_absent; [done|].
    by intros [?|?]%elem_of_app.
  - intros [?|[?|?%list_elem_of_singleton]%elem_of_app]%elem_of_app; done.
Qed.

Lemma append_glues_onto_unterminated_line_witness :
  let w := World {[ _WORDS_PENDING_PATH := py "neko" ]} (MkCollection ∅ ∅ []) [] in
  value (_load_pending_words_from_file
           (final (_append_new_pending_words_to_file [py "inu"] [py "neko"] w)))
  = inr [py "nekoinu"; []].
Proof.
  intros w.
  assert (forall (c : char) s, c ∉ s <-> ~ In c s) as Hin.
  { intros. by rewrite list_elem_of_In. }
  apply (append_glues_onto_unterminated_line w (py "neko") (py "inu") eq_refl);
    try (apply Hin; vm_compute; intuition discriminate).
  vm_compute. discriminate.
Defined.

Lemma split_ws_cons2 c c' s :
  isspace c = false ->
  split_ws (c :: c' :: s)
  = if isspace c' then [c] :: split_ws (c' :: s)
    else match split_ws (c' :: s) with
         | t :: ts => (c :: t) :: ts
         | [] => [[c]]
         end.
Proof. intros Hc. cbn [split_ws]. by rewrite Hc. Qed.

(** The first token of a text that starts with a character that is not
    whitespace starts with that character and has no whitespace. *)
Lemma split_ws_first_token s :
  forall c, isspace c = false ->
            exists token tokens,
              split_ws (c :: s) = (c :: token) :: tokens /\
              Forall (fun a => isspace a = false) token.
Proof.
  induction s as [|c' s IH]; intros c Hc.
  - exists [], []. simpl. by rewrite Hc.
  - rewrite split_ws_cons2 by done. destruct (isspace c') eqn:Hc'.
    + by exists [], (split_ws (c' :: s)).
    + destruct (IH c' Hc') as (token & tokens & Hsplit & Htoken).
      rewrite Hsplit. exists (c' :: token), tokens. split; [done|].
      by constructor.
Qed.

(** X9. Every word that ingestion returns is a single token: it is not
    empty, contains no whitespace (so no line feed either) and does not
    start with the comment marker. *)
Theorem new_words_are_tokens rng word_string word :
  word ∈ _get_new_words_from_multiline_string rng word_string ->
  word <> [] /\
  Forall (fun c => isspace c = false) word /\
  (LF ∉ word) /\
  startswith (py "#") word = false.
Proof.
  unfold _get_new_words_from_multiline_string.
  rewrite shuffle_Permutation, elem_of_elements, elem_of_list_to_set.
  intros (line & _ & Hne & Hcomment & Htoken)%elem_of_tokens_of_lines.
  destruct (strip line) as [|c s] eqn:Hstrip; [done|].
  pose proof (lstrip_head _ _ _ Hstrip) as Hc.
  destruct (split_ws_first_token s c Hc) as (token & tokens & Hsplit & Htok).
  rewrite Hsplit in Htoken. injection Htoken as <-.
  split; [done|]. split; [by constructor|]. split.
  - intros [E|Hin]%elem_of_cons; [by rewrite <- E in Hc|].
    rewrite Forall_forall in Htok. by apply Htok in Hin.
  - revert Hcomment. unfold py. simpl. by rewrite !andb_true_r.
Qed.

Lemma new_words_are_tokens_witness :
  Forall (fun c => isspace c = false) (py "word1").
Proof.
  apply (new_words_are_tokens (fun _ => O)
           (py "# comment\n\nword1 reading\nword1\nword2\n") (py "word1")).
  apply list_elem_of_lookup. exists 0%nat. vm_compute. reflexivity.
Defined.

(** * Further properties of the selector *)

Lemma selects_NoDup_input unicodedata count s ds :
  Forall2 (fun c d => numeric unicodedata c = Decimal d
                      /\ (1 <= d <= count)%nat) s ds ->
  NoDup ds -> NoDup s.
Proof.
  induction 1 as [|c d s ds [Hc _] Hrest IH]; [constructor|].
  intros [Hd Hds]%NoDup_cons. apply NoDup_cons. split; [|by apply IH].
  intros Hin. apply Hd. clear -Hc Hrest Hin.
  induction Hrest as [|c' d' s ds [Hc' _] _ IH]; [by apply elem_of_nil in Hin|].
  apply elem_of_cons in Hin as [->|Hin]; [|right; by apply IH].
  rewrite Hc in Hc'. injection Hc' as ->. by left.
Qed.

(** X10. An input that the validation accepts has pairwise different
    characters and is no longer than the number of candidates; with no
    candidate at all only the empty input is not refused. *)
Theorem accepted_selection_is_short unicodedata count s w :
  value (validate unicodedata count ∅ s w) = inr true ->
  (length s <= count)%nat /\ NoDup s /\ (count = 0%nat -> s = []).
Proof.
  intros [ds [Hf Hnd]]%validate_accepts.
  assert (length s <= count)%nat as Hlen.
  { rewrite (Forall2_length _ _ _ Hf).
    transitivity (length (seq 1 count)); [|by rewrite length_seq].
    apply submseteq_length, NoDup_submseteq; [done|].
    intros d Hd. apply elem_of_seq.
    apply list_elem_of_lookup in Hd as [i Hi].
    destruct (Forall2_lookup_r _ _ _ _ _ Hf Hi) as (c & _ & _ & Hr). lia. }
  split; [done|]. split; [by eapply selects_NoDup_input|].
  intros ->. destruct s; [done|]. simpl in Hlen. lia.
Qed.

Lemma accepted_selection_is_short_witness :
  (length (py "21") <= 2)%nat /\ NoDup (py "21").
Proof.
  destruct (accepted_selection_is_short (fun _ => NotDigit) 2 (py "21")
              (World ∅ (MkCollection ∅ ∅ []) [])) as (? & ? & _);
    [vm_compute; reflexivity|]. by split.
Defined.




Lemma framed_refl w : framed w w.
Proof. by repeat split. Qed.

Lemma framed_remove word w w0 :
  framed w0 w -> framed w0 (final (_remove_word_from_pending_file word w)).
Proof.
  intros (Hfiles & Hd & Hm & Hn & Hs).
  destruct (remove_word_cases word w) as [[_ ->]|(content & _ & ->)];
    [done|]. cbn [final]. split; [|done].
  intros path Hp Hdone Hsk. cbn [files]. rewrite lookup_insert_ne by done.
  by apply Hfiles.
Qed.

Lemma framed_appended w path text new rest :
  path = _WORDS_DONE_PATH \/ path = _WORDS_SKIPPED_PATH ->
  rest `suffix_of` stdin w ->
  framed w (World (appended path text (files w)) (with_notes (anki w) new) rest).
Proof.
  intros Hpath Hrest. split; [|split; [done|split; [done|split; [|done]]]].
  - intros p Hp Hdone Hsk. cbn [files]. unfold appended.
    rewrite lookup_insert_ne; [done|]. by destruct Hpath as [->| ->].
  - cbn. by apply prefix_app_r.
Qed.

Lemma loop_framed
    unicodedata word flashcards deck_id cloze_model_id basic_model_id lines :
  forall w w0,
    stdin w = lines -> framed w0 w ->
    framed w0 (final (selection_loop unicodedata word flashcards deck_id
                        cloze_model_id basic_model_id lines w)).
Proof.
  assert (forall w0 w rest (files' : gmap string str) anki',
             framed w0 w ->
             framed w (World files' anki' rest) ->
             framed w0 (World files' anki' rest)) as Htrans.
  { intros w0 w rest files' anki' (F1 & D1 & M1 & N1 & S1) (F2 & D2 & M2 & N2 & S2).
    split; [|split; [|split; [|split]]]; cbn in *.
    - intros p ? ? ?. rewrite F2 by done. by apply F1.
    - congruence.
    - congruence.
    - by etransitivity.
    - by etransitivity. }
  induction lines as [|s rest IH]; intros w w0 Hin Hfr.
  { by rewrite loop_eof. }
  rewrite <- Hin. destruct (decide (s = [])) as [->|Hne].
  - rewrite (loop_skip _ _ _ _ _ _ rest w Hin), final_after.
    apply framed_remove. eapply Htrans; [done|].
    rewrite <- (with_notes_nil (anki w)).
    apply framed_appended; [by right|]. rewrite Hin. apply suffix_cons_r. done.
  - destruct (loop_cases unicodedata word flashcards deck_id cloze_model_id
                basic_model_id s rest w Hin Hne)
      as [(ds & chosen & _ & _ & ->)|[(_ & c & _ & ->)|(_ & c & _ & _ & ->)]].
    + rewrite final_after. apply framed_remove. eapply Htrans; [done|].
      apply framed_appended; [by left|]. rewrite Hin. by apply suffix_cons_r.
    + rewrite final_after. apply IH; [done|]. eapply Htrans; [done|].
      rewrite <- (with_notes_nil (anki w)).
      split; [|split; [|split; [|split]]]; cbn; try done.
      * by rewrite app_nil_r.
      * rewrite Hin. by apply suffix_cons_r.
    + cbn [final]. eapply Htrans; [done|].
      split; [|split; [|split; [|split]]]; cbn; try done.
      rewrite Hin. by apply suffix_cons_r.
Qed.

(** X12. Whatever the user types and however the review ends, it leaves
    every file other than the pending, done and skipped files as it was
    (the prompt templates among them), keeps the deck and note-type
    tables, only adds notes after the existing ones, and only consumes
    input lines from the front. *)
Theorem review_touches_only_word_files
    unicodedata word flashcards deck_id cloze_model_id basic_model_id w :
  framed w (final (_create_flashcard_interactively unicodedata word flashcards
                     deck_id cloze_model_id basic_model_id w)) /\
  files (final (_create_flashcard_interactively unicodedata word flashcards
                  deck_id cloze_model_id basic_model_id w)) !! _CLOZE_PROMPT_PATH
  = files w !! _CLOZE_PROMPT_PATH /\
  files (final (_create_flashcard_interactively unicodedata word flashcards
                  deck_id cloze_model_id basic_model_id w)) !! _BASIC_PROMPT_PATH
  = files w !! _BASIC_PROMPT_PATH.
Proof.
  destruct (review_run unicodedata word flashcards deck_id cloze_model_id
              basic_model_id) as (header & _ & ->).
  rewrite final_after.
  pose proof (loop_framed unicodedata word flashcards deck_id cloze_model_id
                basic_model_id (stdin w) w w eq_refl (framed_refl w)) as Hfr.
  split; [done|]. destruct Hfr as [Hfiles _]. split; by apply Hfiles.
Qed.

(** * Further properties of the prompt *)

Lemma replace_without_first old_first old new s :
  old_first ∉ s -> replace_from (old_first :: old) new 0 s = s.
Proof.
  induction s as [|c s IH]; [done|]. intros [Hc Hs]%not_elem_of_cons.
  cbn [replace_from startswith].
  destruct (old_first =? c) eqn:E; [apply N.eqb_eq in E; congruence|].
  cbn [andb]. by rewrite IH.
Qed.

Lemma replace_placeholder_here word post :
  replace (py "{{WORD}}") word (py "{{WORD}}" ++ post)
  = word ++ replace (py "{{WORD}}") word post.
Proof. done. Qed.

Lemma replace_before_placeholder word pre rest :
  123 ∉ pre ->
  replace (py "{{WORD}}") word (pre ++ rest)
  = pre ++ replace (py "{{WORD}}") word rest.
Proof.
  induction pre as [|c pre IH]; [done|]. intros [Hc Hpre]%not_elem_of_cons.
  unfold replace in *. cbn [app replace_from].
  change (py "{{WORD}}") with (123 :: py "{WORD}}") at 1.
  cbn [startswith].
  destruct (123 =? c) eqn:E; [apply N.eqb_eq in E; congruence|].
  cbn [andb]. by rewrite IH.
Qed.

(** X13. The request renders the template of the word's kind: with a
    template free of carriage returns that has one placeholder and no
    other opening brace, the prompt is the template with the word in the
    placeholder's place, the word itself being left as it is; a template
    without an opening brace is sent unchanged; and when the template
    file is missing the request raises FileNotFoundError without calling
    the model. *)
Theorem request_renders_template llm n word fs :
  (forall pre post,
      fs !! prompt_path word = Some (pre ++ py "{{WORD}}" ++ post) ->
      CR ∉ pre ++ py "{{WORD}}" ++ post -> 123 ∉ pre -> 123 ∉ post ->
      _request_flashcards_from_llm llm n word fs = llm n (pre ++ word ++ post)) /\
  (forall template,
      fs !! prompt_path word = Some template ->
      CR ∉ template -> 123 ∉ template ->
      _request_flashcards_from_llm llm n word fs = llm n template) /\
  (fs !! prompt_path word = None ->
   _request_flashcards_from_llm llm n word fs
   = inl (FileNotFoundError (prompt_path word))).
Proof.
  unfold _request_flashcards_from_llm. split; [|split].
  - intros pre post -> Hcr Hpre Hpost.
    rewrite universal_newlines_id by done.
    rewrite replace_before_placeholder, replace_placeholder_here by done.
    unfold replace. change (py "{{WORD}}") with (123 :: py "{WORD}}").
    by rewrite replace_without_first.
  - intros template -> Hcr Hbrace.
    rewrite universal_newlines_id by done.
    unfold replace. change (py "{{WORD}}") with (123 :: py "{WORD}}").
    by rewrite replace_without_first.
  - by intros ->.
Qed.

Lemma request_renders_template_witness :
  let fs : gmap string str := {[ _CLOZE_PROMPT_PATH := py "Word: {{WORD}}." ]} in
  _request_flashcards_from_llm (fun _ prompt => inr [Flashcard prompt []]) 0
    (py "neko") fs
  = inr [Flashcard (py "Word: neko.") []].
Proof.
  intros fs.
  assert (forall (c : char) s, c ∉ s <-> ~ In c s) as Hin.
  { intros. by rewrite list_elem_of_In. }
  rewrite (proj1 (request_renders_template
                    (fun _ prompt => inr [Flashcard prompt []]) 0 (py "neko") fs)
             (py "Word: ") (py "."));
    try reflexivity; apply Hin; vm_compute; intuition discriminate.
Defined.

(** * A run in which every word is skipped *)

Lemma review_skip
    unicodedata word flashcards deck_id cloze_model_id basic_model_id w rest pending :
  stdin w = [] :: rest ->
  files w !! _WORDS_PENDING_PATH = Some pending ->
  let o := _create_flashcard_interactively unicodedata word flashcards deck_id
             cloze_model_id basic_model_id w in
  value o = inr tt /\
  final o = World (skipped_files (files w) word) (anki w) rest.
Proof.
  intros Hin Hf o. subst o.
  destruct (review_run unicodedata word flashcards deck_id cloze_model_id
              basic_model_id) as (header & _ & ->).
  rewrite value_after, final_after, (loop_skip _ _ _ _ _ _ rest w Hin).
  rewrite value_after, final_after.
  assert (appended _WORDS_SKIPPED_PATH (word ++ [LF]) (files w)
            !! _WORDS_PENDING_PATH = Some pending) as Hf'.
  { unfold appended. by rewrite lookup_insert_ne. }
  rewrite (remove_word_run word _ pending) by done.
  cbn [value final files anki stdin]. split; [done|].
  unfold skipped_files. by rewrite Hf'.
Qed.

Lemma skipped_files_pending fs word pending :
  fs !! _WORDS_PENDING_PATH = Some pending ->
  skipped_files fs word !! _WORDS_PENDING_PATH
  = Some (concat (filter (fun line => strip line <> word) (file_lines pending))).
Proof.
  intros Hf. unfold skipped_files, appended.
  by rewrite lookup_insert_eq, lookup_insert_ne, Hf.
Qed.

(** The loop, when the user answers every review with an empty line. *)
Lemma main_loop_skip_all
    unicodedata llm words deck_id cloze_model_id basic_model_id rest r :
  forall i future w pending,
    (i + r = length words)%nat ->
    stdin w = replicate r [] ++ rest ->
    files w !! _WORDS_PENDING_PATH = Some pending ->
    let o := main_loop unicodedata llm words deck_id cloze_model_id
               basic_model_id i r future w in
    value o = inr tt ->
    final o = World (foldl skipped_files (files w) (drop i words)) (anki w) rest.
Proof.
  induction r as [|r IH]; intros i future w pending Hlen Hin Hf o Hval; subst o.
  { rewrite drop_ge by lia. cbn in *. rewrite <- Hin. by rewrite world_eta. }
  destruct (lookup_lt_is_Some_2 words i) as [word Hword]; [lia|].
  rewrite (main_loop_step _ _ _ _ _ _ _ _ _ _ _ Hword) in Hval |- *.
  destruct future as [e|completion]; [done|].
  rewrite value_after in Hval. rewrite final_after.
  destruct (review_skip unicodedata word completion deck_id cloze_model_id
              basic_model_id w (replicate r [] ++ rest) pending Hin Hf)
    as [Hv Hfin].
  rewrite (bind_after _ _ _ tt) in Hval |- * by done.
  rewrite value_after in Hval. rewrite final_after.
  rewrite Hfin in Hval |- *.
  erewrite (IH (S i)); [| lia | done | by apply skipped_files_pending | done].
  cbn [files anki]. by rewrite (drop_S _ _ _ Hword).
Qed.

Lemma foldl_skipped_files words :
  forall fs pending,
    fs !! _WORDS_PENDING_PATH = Some pending ->
    let fs' := foldl skipped_files fs words in
    (exists content',
        fs' !! _WORDS_PENDING_PATH = Some content' /\
        file_lines content'
        = filter (fun line => strip line ∉ words) (file_lines pending)) /\
    default [] (fs' !! _WORDS_SKIPPED_PATH)
    = default [] (fs !! _WORDS_SKIPPED_PATH)
      ++ concat ((fun word => word ++ [LF]) <$> words) /\
    (forall path, path <> _WORDS_PENDING_PATH -> path <> _WORDS_SKIPPED_PATH ->
                  fs' !! path = fs !! path).
Proof.
  induction words as [|word words IH]; intros fs pending Hf fs'; subst fs'.
  { cbn [foldl]. split; [|split; [|done]].
    - exists pending. split; [done|]. rewrite filter_Forall_id; [done|].
      apply Forall_forall. intros line _. apply not_elem_of_nil.
    - cbn. by rewrite app_nil_r. }
  cbn [foldl].
  destruct (IH (skipped_files fs word) _ (skipped_files_pending fs word pending Hf))
    as ((content' & Hc & Hlines) & Hsk & Hother).
  split; [|split].
  - exists content'. split; [done|].
    rewrite Hlines, file_lines_rewrite, list_filter_filter.
    apply list_filter_iff. intros line. rewrite not_elem_of_cons. tauto.
  - rewrite Hsk. unfold skipped_files, appended.
    rewrite lookup_insert_ne, lookup_insert_eq by done.
    rewrite fmap_cons. cbn [default concat]. unfold id. by rewrite <- !app_assoc.
  - intros path Hp Hs. rewrite Hother by done.
    unfold skipped_files, appended. by rewrite !lookup_insert_ne.
Qed.

Lemma rstrip_snoc_LF s : rstrip (s ++ [LF]) = rstrip s.
Proof. unfold rstrip. by rewrite reverse_snoc. Qed.

Lemma strip_snoc_LF s : strip (s ++ [LF]) = strip s.
Proof. unfold strip. by rewrite rstrip_snoc_LF. Qed.

(** Every line that [readlines] gives is, up to its line feed, the word
    that [split] gives at the same position. *)
Lemma readlines_split_on text :
  forall i line,
    readlines text !! i = Some line ->
    exists word, split_on LF text !! i = Some word
                 /\ (line = word ++ [LF] \/ line = word).
Proof.
  induction text as [|c text IH]; intros i line Hi; [done|].
  cbn [readlines split_on] in *.
  pose proof (split_on_nonempty LF text) as Hne.
  destruct (c =? LF) eqn:E.
  - apply N.eqb_eq in E as ->. destruct i as [|i].
    + injection Hi as <-. exists []. split; [done|]. by left.
    + by apply IH.
  - destruct (readlines text) as [|line0 lines] eqn:Hr.
    + destruct i; [|done]. injection Hi as <-.
      destruct text; [|by simpl in Hr; destruct (_ =? _), (readlines _)].
      exists [c]. split; [done|]. by right.
    + destruct (split_on LF text) as [|word0 rest] eqn:Hs; [done|].
      destruct i as [|i].
      * injection Hi as <-.
        destruct (IH 0%nat line0 eq_refl) as (word & [= <-] & Hw).
        exists (c :: word0). split; [done|].
        destruct Hw as [-> | ->]; [by left|by right].
      * destruct (IH (S i) line Hi) as (word & Hword & Hw). by exists word.
Qed.

Lemma universal_newlines_nil_inv s : universal_newlines s = [] -> s = [].
Proof. destruct s as [|c s]; [done|]. simpl. by destruct (c =? CR). Qed.

Lemma file_lines_nil_inv content : file_lines content = [] -> content = [].
Proof.
  unfold file_lines. intros Hnil. apply universal_newlines_nil_inv.
  rewrite <- (readlines_concat (universal_newlines content)). by rewrite Hnil.
Qed.

Lemma trimmed_lines_are_words pending :
  Forall (fun word => strip word = word)
    (split_on LF (universal_newlines pending)) ->
  filter (fun line => strip line ∉ split_on LF (universal_newlines pending))
    (file_lines pending) = [].
Proof.
  intros Hwords. rewrite Forall_forall in Hwords.
  apply elem_of_nil_inv. intros line [Hout Hin]%list_elem_of_filter.
  apply Hout. apply list_elem_of_lookup in Hin as [i Hi].
  destruct (readlines_split_on _ _ _ Hi) as (word & Hword & Hline).
  apply list_elem_of_lookup_2 in Hword as Hw.
  replace (strip line) with word; [done|].
  destruct Hline as [-> | ->]; [rewrite strip_snoc_LF|]; by rewrite Hwords.
Qed.

(** X14. A run of the block in which the user answers every review with
    an empty line and which returns: every word's line has been appended
    to the skipped file, in order; the done file, every other file and
    the collection are as before; the pending file has lost exactly the
    lines whose trimmed content is one of the words.  When the words are
    the loaded pending words and each of them is its own trimmed content
    (no leading or trailing whitespace), the pending file ends empty. *)
Theorem skip_all_run
    unicodedata llm words deck_id cloze_model_id basic_model_id w pending rest :
  files w !! _WORDS_PENDING_PATH = Some pending ->
  stdin w = replicate (length words) [] ++ rest ->
  let o := process_pending_words unicodedata llm words deck_id cloze_model_id
             basic_model_id w in
  value o = inr tt ->
  stdin (final o) = rest /\
  anki (final o) = anki w /\
  default [] (files (final o) !! _WORDS_SKIPPED_PATH)
  = default [] (files w !! _WORDS_SKIPPED_PATH)
    ++ concat ((fun word => word ++ [LF]) <$> words) /\
  (forall path, path <> _WORDS_PENDING_PATH -> path <> _WORDS_SKIPPED_PATH ->
                files (final o) !! path = files w !! path) /\
  (exists content',
      files (final o) !! _WORDS_PENDING_PATH = Some content' /\
      file_lines content'
      = filter (fun line => strip line ∉ words) (file_lines pending)) /\
  (words = split_on LF (universal_newlines pending) ->
   Forall (fun word => strip word = word) words ->
   files (final o) !! _WORDS_PENDING_PATH = Some []).
Proof.
  intros Hf Hin o Hval. subst o.
  rewrite process_pending_words_run in Hval |- *.
  destruct words as [|first others] eqn:Hwords; [done|]. rewrite <- Hwords in *.
  rewrite value_after in Hval. rewrite final_after.
  rewrite (main_loop_skip_all unicodedata llm words deck_id cloze_model_id
             basic_model_id rest (length words) 0 _ w pending eq_refl Hin Hf Hval).
  cbn [stdin anki files]. rewrite drop_0.
  destruct (foldl_skipped_files words (files w) pending Hf)
    as ((content' & Hc & Hlines) & Hsk & Hother).
  split; [done|]. split; [done|]. split; [done|]. split; [done|].
  split; [by exists content'|].
  intros Hload Htrim. rewrite Hc. f_equal. apply file_lines_nil_inv.
  rewrite Hlines, Hload. apply trimmed_lines_are_words. by rewrite <- Hload.
Qed.

Lemma skip_all_run_witness :
  let w := World {[ _WORDS_PENDING_PATH := py "neko\ninu\n";
                    _CLOZE_PROMPT_PATH := py "{{WORD}}";
                    _BASIC_PROMPT_PATH := py "{{WORD}}" ]}
             (MkCollection ∅ ∅ []) [[]; []; []] in
  let llm := fun (_ : nat) (_ : str) =>
               inr [Flashcard (py "x") (py "y")] : exn + list flashcard in
  let o := process_pending_words (fun _ => NotDigit) llm
             [py "neko"; py "inu"; []] 1 2 3 w in
  files (final o) !! _WORDS_PENDING_PATH = Some [] /\
  default [] (files (final o) !! _WORDS_SKIPPED_PATH) = py "neko\ninu\n\n".
Proof.
  intros w llm o.
  destruct (skip_all_run (fun _ => NotDigit) llm [py "neko"; py "inu"; []]
              1 2 3 w (py "neko\ninu\n") [] eq_refl eq_refl)
    as (_ & _ & Hsk & _ & _ & Hempty); [vm_compute; reflexivity|].
  split.
  - apply Hempty; [vm_compute; reflexivity|].
    repeat constructor; vm_compute; reflexivity.
  - fold o in Hsk. rewrite Hsk. vm_compute. reflexivity.
Defined.

(** * New words at the start of a run *)

(** X15. When the new-words block yields words, [main_with] appends those
    that are not yet pending lines, loads the pending file again and walks
    that second list: the old text followed by one line per word that was
    not already a pending word. *)
Theorem main_appends_then_reloads
    unicodedata rng llm new_words w deck_id cloze_id basic_id content :
  decks (anki w) !! _DECK_NAME = Some deck_id -> deck_id <> 0%Z ->
  models (anki w) !! _CLOZE_MODEL_NAME = Some cloze_id -> cloze_id <> 0%Z ->
  models (anki w) !! _BASIC_MODEL_NAME = Some basic_id -> basic_id <> 0%Z ->
  files w !! _WORDS_PENDING_PATH = Some content ->
  let constant_words := _get_new_words_from_multiline_string rng new_words in
  constant_words <> [] ->
  let existing := split_on LF (universal_newlines content) in
  let content' := content ++ appended_text constant_words existing in
  let w' := World (<[_WORDS_PENDING_PATH := content']> (files w))
              (anki w) (stdin w) in
  exists banner,
    main_with unicodedata rng llm new_words w
    = after (Print banner :: ReadFile _WORDS_PENDING_PATH
             :: trace (_append_new_pending_words_to_file constant_words
                         existing w)
             ++ [ReadFile _WORDS_PENDING_PATH])
        (process_pending_words unicodedata llm
           (split_on LF (universal_newlines content'))
           deck_id cloze_id basic_id w').
Proof.
  intros Hd Hdz Hc Hcz Hb Hbz Hf constant_words Hne existing content' w'.
  eexists. unfold main_with.
  rewrite (bind_pure _ _ _ (anki w)) by done.
  rewrite (bind_pure _ _ _ deck_id) by (by apply require_id_ok).
  rewrite (bind_pure _ _ _ cloze_id) by (by apply require_id_ok).
  rewrite (bind_pure _ _ _ basic_id) by (by apply require_id_ok).
  rewrite bind_print.
  rewrite (bind_after _ _ _ existing) by (by rewrite (load_pending_run _ _ Hf)).
  rewrite (load_pending_run _ _ Hf). cbn [trace final].
  fold constant_words.
  destruct (append_pending_run constant_words existing w) as [Hv Hfin].
  rewrite Hf in Hfin. cbn [default] in Hfin. unfold id in Hfin.
  fold content' w' in Hfin.
  assert (files w' !! _WORDS_PENDING_PATH = Some content') as Hf'
    by apply lookup_insert_eq.
  assert (forall (A B : M (list str)) (l : list str),
             l <> [] -> match l with [] => A | _ :: _ => B end = B) as Hmatch.
  { intros A B [|x l] Hl; [done|reflexivity]. }
  rewrite Hmatch by done.
  assert (bind (_append_new_pending_words_to_file constant_words existing)
            (fun _ => _load_pending_words_from_file) w
          = after (trace (_append_new_pending_words_to_file constant_words
                            existing w))
              (Outcome [ReadFile _WORDS_PENDING_PATH] w'
                 (inr (split_on LF (universal_newlines content'))))) as Hinner.
  { rewrite (bind_after _ _ _ tt) by done.
    by rewrite Hfin, (load_pending_run _ _ Hf'). }
  rewrite (bind_after _ _ _ (split_on LF (universal_newlines content')))
    by (by rewrite Hinner).
  rewrite Hinner. cbn [after trace final value].
  pose proof (split_on_nonempty LF (universal_newlines content')) as Hsplit.
  unfold process_pending_words, after.
  destruct (split_on LF (universal_newlines content')); [done|].
  cbn [trace final value]. f_equal; by rewrite <- ?app_assoc.
Qed.

Lemma main_appends_then_reloads_witness :
  let w := World {[ _WORDS_PENDING_PATH := py "neko\n" ]}
             (MkCollection {[ _DECK_NAME := 5%Z ]}
                {[ _CLOZE_MODEL_NAME := 7%Z; _BASIC_MODEL_NAME := 8%Z ]} [])
             [] in
  exists banner t,
    main_with (fun _ => NotDigit) (fun _ => O) (fun _ _ => inl APIError)
      (py "neko\ninu") w
    = after (Print banner :: ReadFile _WORDS_PENDING_PATH :: t)
        (process_pending_words (fun _ => NotDigit) (fun _ _ => inl APIError)
           [py "neko"; py "inu"; []] 5 7 8
           (World {[ _WORDS_PENDING_PATH := py "neko\ninu\n" ]} (anki w) [])).
Proof.
  intros w.
  destruct (main_appends_then_reloads (fun _ => NotDigit) (fun _ => O)
              (fun _ _ => inl APIError) (py "neko\ninu") w 5 7 8 (py "neko\n"))
    as [banner Hrun]; try reflexivity; try lia.
  { vm_compute. discriminate. }
  exists banner. eexists. rewrite Hrun. reflexivity.
Defined.
